(** * DynSLAM, [DepthProvider.h]: from stereo disparity to metric depth

    A shallow embedding of [struct StereoCalibration] and of the methods of
    [class DepthProvider] ([DepthFromStereo], [DepthFromDisparity],
    [DepthFromDisparityMap<T>]), followed by the properties the design
    document states about them.

    Numbers are modelled as the program has them: [float] and [double] are
    IEEE 754 binary32 and binary64 values ([spec_float] with the rounding,
    overflow and underflow of [SpecFloat]), [int32_t], [int16_t] and
    [uint16_t] are integers in [Z] with their conversions written out, and a
    [cv::Mat] is a header (type code, rows, cols) over a row-major buffer. *)

From Stdlib Require Import ZArith Bool List String Lia.
From Stdlib Require Import Floats.SpecFloat.
From stdpp Require Import base list.

Local Open Scope Z_scope.

(** ** IEEE 754 arithmetic of the two floating-point types *)

Abbreviation float32 := spec_float.
Abbreviation float64 := spec_float.

Module F32.
Definition prec : Z := 24.
Definition emax : Z := 128.
Definition mul : float32 -> float32 -> float32 := SFmul prec emax.
Definition div : float32 -> float32 -> float32 := SFdiv prec emax.
Definition of_Z (z : Z) : float32 := binary_normalize prec emax z 0 false.
Definition valid (x : float32) : bool := valid_binary prec emax x.
(** The literal [a/b] rounded to single precision (decimal literals). *)
Definition of_ratio (a b : Z) : float32 := div (of_Z a) (of_Z b).
End F32.

Module F64.
Definition prec : Z := 53.
Definition emax : Z := 1024.
Definition mul : float64 -> float64 -> float64 := SFmul prec emax.
Definition of_Z (z : Z) : float64 := binary_normalize prec emax z 0 false.
Definition valid (x : float64) : bool := valid_binary prec emax x.
(** Usual arithmetic conversion [float] to [double]: exact. *)
Definition of_float (x : float32) : float64 :=
  match x with
  | S754_finite s m e => binary_round prec emax s m e
  | _ => x
  end.
End F64.

(** [x > y] on floating-point values: false as soon as one side is a NaN. *)
Definition SFgtb (x y : spec_float) : bool := SFltb y x.

(** The integer part of a finite value, rounding toward zero. *)
Definition Ztrunc (x : spec_float) : option Z :=
  match x with
  | S754_zero _ => Some 0
  | S754_finite s m e => Some (cond_Zopp s (Z.shiftl (Zpos m) e))
  | S754_infinity _ | S754_nan => None
  end.

(** ** Integer types *)

Definition INT32_MIN : Z := - 2 ^ 31.
Definition INT32_MAX : Z := 2 ^ 31 - 1.
Definition INT16_MIN : Z := - 2 ^ 15.
Definition INT16_MAX : Z := 2 ^ 15 - 1.   (* std::numeric_limits<int16_t>::max() *)
Definition UINT16_MAX : Z := 2 ^ 16 - 1.

Definition in_int32 (z : Z) : bool := (INT32_MIN <=? z) && (z <=? INT32_MAX).
Definition in_int16 (z : Z) : bool := (INT16_MIN <=? z) && (z <=? INT16_MAX).
Definition in_uint16 (z : Z) : bool := (0 <=? z) && (z <=? UINT16_MAX).

(** [static_cast<int16_t>] of an [int32_t]: keeps the low 16 bits. *)
Definition static_cast_int16 (z : Z) : Z := (z + 2 ^ 15) mod 2 ^ 16 - 2 ^ 15.

(** ** What the header takes from outside

    Three things used by [DepthProvider.h] are fixed elsewhere: the value a
    conversion [double -> int32_t] produces when the truncated value does not
    fit (C++ leaves it undefined, the target's conversion instruction decides),
    the element conversion [cv::Mat_<uint16_t>(const cv::Mat&)] applies to
    [CV_16S] data, and [utils::Type2Str], only declared in this header. *)
Class Platform := {
  cvt_indefinite : Z;
  cvt_indefinite_int32 : in_int32 cvt_indefinite = true;
  ushort_of_short : Z -> Z;
  ushort_of_short_uint16 : forall z, in_uint16 (ushort_of_short z) = true;
  Type2Str : Z -> string
}.

(** OpenCV converts between depths with [saturate_cast]. *)
Definition saturate_cast_ushort (z : Z) : Z := Z.max 0 (Z.min UINT16_MAX z).
(** Reading the stored 16 bits as they are. *)
Definition reinterpret_ushort (z : Z) : Z := z mod 2 ^ 16.

(** ** OpenCV matrices *)

Definition CV_8UC1 : Z := 0.
Definition CV_16UC1 : Z := 2.
Definition CV_16SC1 : Z := 3.
Definition CV_32FC1 : Z := 5.
Definition CV_64FC1 : Z := 6.

Inductive Scalar :=
| Sc_float (x : float32)
| Sc_int (z : Z).

Definition Scalar_float (s : Scalar) : float32 :=
  match s with Sc_float x => x | Sc_int z => F32.of_Z z end.
Definition Scalar_int (s : Scalar) : Z :=
  match s with Sc_int z => z | Sc_float _ => 0 end.

(** [cv::Mat]: element type code, size, and the elements in row-major order. *)
Record Mat := {
  type : Z;
  rows : nat;
  cols : nat;
  data : list Scalar
}.

(** [cv::Mat_<T>]: the element type is static. *)
Record Mat_ (T : Type) := {
  rows_ : nat;
  cols_ : nat;
  data_ : list T
}.
Arguments rows_ {T}.
Arguments cols_ {T}.
Arguments data_ {T}.

Definition is_float (s : Scalar) : bool :=
  match s with Sc_float _ => true | _ => false end.
Definition is_short (s : Scalar) : bool :=
  match s with Sc_int z => in_int16 z | _ => false end.

(** A matrix as OpenCV keeps it: [rows * cols] elements, of the stated type. *)
Definition Mat_wf (m : Mat) : bool :=
  (length (data m) =? rows m * cols m)%nat
  && (if type m =? CV_32FC1 then forallb is_float (data m) else true)
  && (if type m =? CV_16SC1 then forallb is_short (data m) else true).

(** [cv::Mat()] *)
Definition Mat_empty : Mat := {| type := CV_8UC1; rows := 0; cols := 0; data := [] |}.

(** [cv::Mat1s(size, value)]: a [CV_16SC1] matrix with every element [value]. *)
Definition Mat1s (size : nat * nat) (value : Z) : Mat :=
  {| type := CV_16SC1; rows := fst size; cols := snd size;
     data := replicate (fst size * snd size) (Sc_int (static_cast_int16 value)) |}.

Definition size (m : Mat) : nat * nat := (rows m, cols m).
Definition size_ {T} (m : Mat_ T) : nat * nat := (rows_ m, cols_ m).

(** [cv::Mat_<float>(const cv::Mat&)] on a [CV_32FC1] matrix shares the data. *)
Definition Mat__float (m : Mat) : Mat_ float32 :=
  {| rows_ := rows m; cols_ := cols m; data_ := Scalar_float <$> data m |}.

(** [cv::Mat_<uint16_t>(const cv::Mat&)] on a [CV_16SC1] matrix: the depths
    differ, every element goes through the conversion of the library. *)
Definition Mat__uint16 `{Platform} (m : Mat) : Mat_ Z :=
  {| rows_ := rows m; cols_ := cols m;
     data_ := (fun s => ushort_of_short (Scalar_int s)) <$> data m |}.

(** [out.at<int16_t>(i, j) = v]. The loops stay inside the buffer; outside
    of it the source has no defined behaviour and the model writes nothing. *)
Definition Mat_set (m : Mat) (i j : nat) (v : Z) : Mat :=
  {| type := type m; rows := rows m; cols := cols m;
     data := <[ (i * cols m + j)%nat := Sc_int v ]> (data m) |}.

(** [out.at<int16_t>(i, j)] *)
Definition Mat_at (m : Mat) (i j : nat) : option Z :=
  Scalar_int <$> data m !! (i * cols m + j)%nat.

(** The element types [DepthFromDisparityMap] is instantiated at: each one
    converts implicitly to the [float] parameter of [DepthFromDisparity]. *)
Class DisparityElem (T : Type) := {
  to_float : T -> float32;
  elem_default : T
}.
#[export] Instance DisparityElem_float : DisparityElem float32 :=
  {| to_float := fun x => x; elem_default := S754_zero false |}.
#[export] Instance DisparityElem_uint16 : DisparityElem Z :=
  {| to_float := F32.of_Z; elem_default := 0 |}.

(** [m.at<T>(i, j)], with a default outside of the buffer, where the loops
    do not read. *)
Definition Mat__at {T} `{DisparityElem T} (m : Mat_ T) (i j : nat) : T :=
  default elem_default (data_ m !! (i * cols_ m + j)%nat).

(** ** [struct StereoCalibration] *)

Record StereoCalibration := {
  baseline_meters : float32;
  focal_length_px : float32
}.

(** The constructor: a member initialiser list and an empty body. *)
Definition StereoCalibration_new (baseline focal : float32) : StereoCalibration :=
  {| baseline_meters := baseline; focal_length_px := focal |}.

(** ** [class DepthProvider] *)

Inductive Completion :=
| Returned
| Thrown (what : string)        (* std::runtime_error *)
| AssertionFailed.

(** The state of a provider: the mode flag and the two pure virtual methods.
    [DisparityMapFromStereo left right out] gives how the call ends and the
    content of its out parameter afterwards. *)
Record DepthProvider := {
  input_is_depth_ : bool;
  DisparityMapFromStereo : Mat -> Mat -> Mat -> Completion * Mat;
  GetName : string
}.

(** [for (int i = 0; i < n; ++i) body] over a state. *)
Definition for_loop {St : Type} (n : nat) (body : nat -> St -> St) (s : St) : St :=
  fold_left (fun s i => body i s) (seq 0 n) s.

(** [DepthFromDisparity] as the base class defines it. *)
Definition DepthFromDisparity (disparity_px : float32)
    (calibration : StereoCalibration) : float32 :=
  F32.div (F32.mul (baseline_meters calibration) (focal_length_px calibration))
          disparity_px.

Section WithPlatform.
Context `{Platform}.

(** [static_cast<int32_t>] of a [double]: the integer part when it fits,
    the target's answer otherwise. *)
Definition static_cast_int32 (x : float64) : Z :=
  match Ztrunc x with
  | Some t => if in_int32 t then t else cvt_indefinite
  | None => cvt_indefinite
  end.

(** The constants of the loop body: [1000.0], [15] and the literal [0.5]. *)
Definition kMetersToMillimeters : float64 :=
  Eval vm_compute in F64.of_Z 1000.
Definition kMaxDepthMeters : Z := 15.
Definition double_0_5 : float64 :=
  Eval vm_compute in binary_normalize F64.prec F64.emax 1 (-1) false.

(** The body of the two loops, statement by statement. First
    [int32_t depth_mm = static_cast<int32_t>(kMetersToMillimeters *
    DepthFromDisparity(disp, calibration))]: [disp] converts to the [float]
    parameter, the [float] result to [double] for the product. *)
Definition depth_mm_of {T} `{DisparityElem T} (disp : T)
    (calibration : StereoCalibration) : Z :=
  static_cast_int32
    (F64.mul kMetersToMillimeters
             (F64.of_float (DepthFromDisparity (to_float disp) calibration))).

(** [int32_t min_depth = 0.5 * kMetersToMillimeters] *)
Definition min_depth : Z := static_cast_int32 (F64.mul double_0_5 kMetersToMillimeters).

(** [if (depth_mm > kMaxDepthMeters * kMetersToMillimeters || depth_mm < min_depth)
    depth_mm = std::numeric_limits<int16_t>::max()]: the first comparison is
    made in [double], the second on integers. *)
Definition clip (depth_mm : Z) : Z :=
  if SFgtb (F64.of_Z depth_mm) (F64.mul (F64.of_Z kMaxDepthMeters) kMetersToMillimeters)
     || (depth_mm <? min_depth)
  then INT16_MAX
  else depth_mm.

(** The value stored for the element [disp], narrowed to [int16_t]. *)
Definition pixel {T} `{DisparityElem T} (disp : T)
    (calibration : StereoCalibration) : Z :=
  let depth_mm := depth_mm_of disp calibration in
  let depth_mm := clip depth_mm in
  let depth_mm_short := static_cast_int16 depth_mm in
  depth_mm_short.

(** [DepthFromDisparityMap<T>]: the size assertion, then the two loops
    writing [out_depth] cell by cell. *)
Definition DepthFromDisparityMap {T} `{DisparityElem T} (disparity : Mat_ T)
    (calibration : StereoCalibration) (out_depth : Mat) : Completion * Mat :=
  if negb (bool_decide (size_ disparity = size out_depth)) then
    (AssertionFailed, out_depth)
  else
    (Returned,
     for_loop (rows_ disparity) (fun i out_depth =>
       for_loop (cols_ disparity) (fun j out_depth =>
         let disp := Mat__at disparity i j in
         Mat_set out_depth i j (pixel disp calibration))
         out_depth)
       out_depth).

Definition unknown_type_message (t : Z) : string :=
  ("Unknown data type for disparity matrix [" ++ Type2Str t
     ++ "]. Supported are CV_32FC1 and CV_16UC1.")%string.

(** [DepthFromStereo]: how the call ends and what [out_depth] holds then.
    The out parameter is assigned [cv::Mat1s(out_disparity.size(), CV_16SC1)]
    before the type is looked at; the second argument of that constructor is
    the value of the elements, so the fresh buffer holds the number
    [CV_16SC1] in every cell until the loops overwrite it. *)
Definition DepthFromStereo (self : DepthProvider) (left right : Mat)
    (calibration : StereoCalibration) (out_depth : Mat) : Completion * Mat :=
  if input_is_depth_ self then
    DisparityMapFromStereo self left right out_depth
  else
    match DisparityMapFromStereo self left right Mat_empty with
    | (Returned, out_disparity) =>
        let out_depth := Mat1s (size out_disparity) CV_16SC1 in
        if type out_disparity =? CV_32FC1 then
          DepthFromDisparityMap (Mat__float out_disparity) calibration out_depth
        else if type out_disparity =? CV_16SC1 then
          DepthFromDisparityMap (Mat__uint16 out_disparity) calibration out_depth
        else
          (Thrown (unknown_type_message (type out_disparity)), out_depth)
    | (failure, _) => (failure, out_depth)
    end.
End WithPlatform.

Lemma saturate_cast_ushort_uint16 (z : Z) : in_uint16 (saturate_cast_ushort z) = true.
Proof.
  unfold in_uint16, saturate_cast_ushort, UINT16_MAX.
  apply andb_true_iff. split; apply Z.leb_le; lia.
Qed.

Lemma reinterpret_ushort_uint16 (z : Z) : in_uint16 (reinterpret_ushort z) = true.
Proof.
  unfold in_uint16, reinterpret_ushort, UINT16_MAX.
  pose proof (Z.mod_pos_bound z (2 ^ 16) ltac:(lia)).
  apply andb_true_iff. split; apply Z.leb_le; lia.
Qed.

(** Modelled from the spec: [utils::Type2Str] is declared in this header and
    defined elsewhere; the error has to name the unsupported type, and this
    stand-in gives a type code its OpenCV name. *)
Definition Type2Str_codes (t : Z) : string :=
  if t =? CV_8UC1 then "8UC1"
  else if t =? CV_16UC1 then "16UC1"
  else if t =? CV_16SC1 then "16SC1"
  else if t =? CV_32FC1 then "32FC1"
  else if t =? CV_64FC1 then "64FC1"
  else "User".

(** The target the project is built for, x86-64, whose [cvttsd2si] answers
    [0x80000000] when the value does not fit, with the two readings of the
    library's element conversion. *)
Definition x86_64_opencv : Platform :=
  {| cvt_indefinite := INT32_MIN;
     cvt_indefinite_int32 := eq_refl;
     ushort_of_short := saturate_cast_ushort;
     ushort_of_short_uint16 := saturate_cast_ushort_uint16;
     Type2Str := Type2Str_codes |}.

Definition x86_64_raw_bits : Platform :=
  {| cvt_indefinite := INT32_MIN;
     cvt_indefinite_int32 := eq_refl;
     ushort_of_short := reinterpret_ushort;
     ushort_of_short_uint16 := reinterpret_ushort_uint16;
     Type2Str := Type2Str_codes |}.


(** ** Vocabulary of the statements *)

(** The [float] that [DepthFromDisparity] receives as [disparity_px] for the
    element [s] of an estimator output of type [t]: the element itself in the
    [CV_32FC1] branch, the [uint16_t] read from the converted matrix in the
    [CV_16SC1] branch. *)
Definition disparity_px `{Platform} (t : Z) (s : Scalar) : float32 :=
  if t =? CV_32FC1 then to_float (Scalar_float s)
  else to_float (ushort_of_short (Scalar_int s)).

(** The element types [DepthFromStereo] dispatches on. *)
Definition supported (t : Z) : bool := (t =? CV_32FC1) || (t =? CV_16SC1).



Definition is_zero (x : spec_float) : bool :=
  match x with S754_zero _ => true | _ => false end.
Definition is_negative (x : spec_float) : bool :=
  match x with S754_finite true _ _ | S754_infinity true => true | _ => false end.
Definition is_positive_finite (x : spec_float) : bool :=
  match x with S754_finite false _ _ => true | _ => false end.
Definition is_non_finite (x : spec_float) : bool :=
  match x with S754_infinity _ | S754_nan => true | _ => false end.
Definition positive_calibration (c : StereoCalibration) : bool :=
  is_positive_finite (baseline_meters c) && is_positive_finite (focal_length_px c).

(** The sign bit of [x] is [s], or [x] is a NaN. *)
Definition sign_is (s : bool) (x : spec_float) : Prop :=
  match x with
  | S754_zero s' | S754_infinity s' | S754_finite s' _ _ => s' = s
  | S754_nan => True
  end.

(** Row [i] of the output after [n] turns of the inner loop, and the output
    after [r] turns of the outer one, for a body that stores [g i j]. *)
Definition fill_row (g : nat -> nat -> Z) (i n : nat) (out : Mat) : Mat :=
  for_loop n (fun j out => Mat_set out i j (g i j)) out.

Definition fill_rows (g : nat -> nat -> Z) (r c : nat) (out : Mat) : Mat :=
  for_loop r (fun i out => fill_row g i c out) out.

(** Rounding in [SpecFloat] works on a mantissa with a position between two
    integers. Both are read off a fraction [N / D]. *)
Definition loc_frac (N D : Z) : location :=
  if N mod D =? 0 then loc_Exact else loc_Inexact (2 * (N mod D) ?= D).

Definition rec_frac (N D : Z) : shr_record :=
  shr_record_of_loc (N / D) (loc_frac N D).

(** [N / D] rounded to the nearest integer, ties to even. *)
Definition rneZ (N D : Z) : Z := round_nearest_even (N / D) (loc_frac N D).

(** The end of [binary_round_aux]: what becomes of the rounded mantissa [m2]
    at exponent [e1]. *)
Definition finalize (prec emax : Z) (s : bool) (e1 m2 : Z) : spec_float :=
  let n2 := Z.max (fexp prec emax (Zdigits2 m2 + e1) - e1) 0 in
  match m2 / 2 ^ n2 with
  | Z0 => S754_zero s
  | Zpos m => if e1 + n2 <=? emax - prec then S754_finite s m (e1 + n2)
              else S754_infinity s
  | Zneg _ => S754_nan
  end.

(** ** Providers used to run the code on concrete inputs *)

(** An estimator that writes the matrix [m] into its out parameter. *)
Definition fixed_estimator (input_is_depth : bool) (m : Mat) : DepthProvider :=
  {| input_is_depth_ := input_is_depth;
     DisparityMapFromStereo := fun _ _ _ => (Returned, m);
     GetName := "fixed" |}.

Definition Mat_32FC1 (r c : nat) (px : list float32) : Mat :=
  {| type := CV_32FC1; rows := r; cols := c; data := Sc_float <$> px |}.
Definition Mat_16SC1 (r c : nat) (px : list Z) : Mat :=
  {| type := CV_16SC1; rows := r; cols := c; data := Sc_int <$> px |}.
Definition Mat_8UC1 (r c : nat) (px : list Z) : Mat :=
  {| type := CV_8UC1; rows := r; cols := c; data := Sc_int <$> px |}.

(** The KITTI-like rig of the design document: 0.54 m, 720 px. *)
Definition kitti : StereoCalibration :=
  StereoCalibration_new (F32.of_ratio 54 100) (F32.of_Z 720).

(** A stereo pair; the estimators below do not look at it. *)
Definition image : Mat := Mat_8UC1 1 2 [10; 20].

(** Baseline 0.5 m and focal length 1 px: the depth in meters is [0.5 / d]. *)
Definition half_meter : StereoCalibration :=
  StereoCalibration_new (F32.of_ratio 1 2) (F32.of_Z 1).

(** Disparities 1 px and 50 px: 500 mm, kept, and 10 mm, below the range. *)
Definition two_pixels : Mat := Mat_32FC1 1 2 [F32.of_Z 1; F32.of_Z 50].

(** Baseline 15 m and focal length 1 px: a disparity of 1 px is 15000 mm. *)
Definition fifteen_meters : StereoCalibration :=
  StereoCalibration_new (F32.of_Z 15) (F32.of_Z 1).

Definition one_pixel : Mat := Mat_32FC1 1 1 [F32.of_Z 1].

Definition image_1x1 : Mat := Mat_8UC1 1 1 [10].

(** An estimator output of a type [DepthFromStereo] does not handle. *)
Definition bytes_1x1 : Mat := Mat_8UC1 1 1 [7].


(** Two matrices of the same width, one on top of the other. *)
Definition Mat__vconcat {T} (a b : Mat_ T) : Mat_ T :=
  {| rows_ := rows_ a + rows_ b; cols_ := cols_ a; data_ := data_ a ++ data_ b |}.
Definition Mat_vconcat (a b : Mat) : Mat :=
  {| type := type a; rows := rows a + rows b; cols := cols a;
     data := data a ++ data b |}.

(** A zero, a positive finite number or plus infinity. *)
Definition nonneg_class (r : spec_float) : Prop :=
  r = S754_zero false \/ r = S754_infinity false \/ is_positive_finite r = true.

(** A positive finite number whose mantissa has all its 24 bits. *)
Definition is_positive_normal (x : float32) : bool :=
  match x with
  | S754_finite false m _ => F32.prec <=? Zpos (digits2_pos m)
  | _ => false
  end.

(** A typed disparity field and an output buffer with something in it. *)
Definition typed_two_pixels : Mat_ float32 := Mat__float two_pixels.
Definition stale_depth : Mat := Mat_16SC1 1 2 [1234; 5678].

(** * Lemmas *)

(** ** The two loops of [DepthFromDisparityMap] *)

Section Loops.
Context {St : Type}.

Lemma for_loop_0 (body : nat -> St -> St) (s : St) : for_loop 0 body s = s.
Proof. reflexivity. Qed.

Lemma for_loop_S (n : nat) (body : nat -> St -> St) (s : St) :
  for_loop (S n) body s = body n (for_loop n body s).
Proof.
  unfold for_loop. rewrite seq_S, fold_left_app. reflexivity.
Qed.
End Loops.

Lemma fill_row_header g i n out :
  type (fill_row g i n out) = type out
  /\ rows (fill_row g i n out) = rows out
  /\ cols (fill_row g i n out) = cols out
  /\ length (data (fill_row g i n out)) = length (data out).
Proof.
  unfold fill_row. induction n as [|n IH].
  - rewrite for_loop_0. auto.
  - rewrite for_loop_S. destruct IH as (Ht & Hr & Hc & Hl).
    unfold Mat_set at 1 2 3 4. simpl. rewrite length_insert. auto.
Qed.

Lemma fill_rows_header g r c out :
  type (fill_rows g r c out) = type out
  /\ rows (fill_rows g r c out) = rows out
  /\ cols (fill_rows g r c out) = cols out
  /\ length (data (fill_rows g r c out)) = length (data out).
Proof.
  unfold fill_rows. induction r as [|r IH].
  - rewrite for_loop_0. auto.
  - rewrite for_loop_S. destruct IH as (Ht & Hr & Hc & Hl).
    destruct (fill_row_header g r c (for_loop r (fun i out => fill_row g i c out) out))
      as (Ht' & Hr' & Hc' & Hl').
    rewrite Ht', Hr', Hc', Hl'. auto.
Qed.

(** After [n] iterations of the inner loop, exactly the cells
    [i * cols + 0 .. i * cols + n) of the buffer were overwritten. *)
Lemma fill_row_lookup g i n out (k : nat) :
  data (fill_row g i n out) !! k =
    if decide (i * cols out <= k < i * cols out + n)%nat
    then (fun _ => Sc_int (g i (k - i * cols out)%nat)) <$> data out !! k
    else data out !! k.
Proof.
  induction n as [|n IH].
  - unfold fill_row. rewrite for_loop_0. destruct decide; [lia | reflexivity].
  - unfold fill_row in *. rewrite for_loop_S.
    set (prev := for_loop n _ out) in *.
    destruct (fill_row_header g i n out) as (_ & _ & Hc & Hl).
    unfold fill_row in Hc, Hl. fold prev in Hc, Hl.
    unfold Mat_set. simpl. rewrite Hc.
    rewrite list_lookup_insert, IH, Hl.
    repeat destruct decide; try lia; try reflexivity.
    + destruct (data out !! k) eqn:E; simpl.
      * do 3 f_equal. lia.
      * apply lookup_ge_None_1 in E. lia.
    + destruct (data out !! k) eqn:E; simpl; [|reflexivity].
      apply lookup_lt_Some in E. lia.
Qed.

Lemma fill_rows_lookup g r c out (i0 j0 : nat) :
  cols out = c -> (j0 < c)%nat ->
  data (fill_rows g r c out) !! (i0 * c + j0)%nat =
    if decide (i0 < r)%nat
    then (fun _ => Sc_int (g i0 j0)) <$> data out !! (i0 * c + j0)%nat
    else data out !! (i0 * c + j0)%nat.
Proof.
  intros Hc Hj. induction r as [|r IH].
  - unfold fill_rows. rewrite for_loop_0. destruct decide; [lia | reflexivity].
  - unfold fill_rows in *. rewrite for_loop_S.
    set (prev := for_loop r _ out) in *.
    destruct (fill_rows_header g r c out) as (_ & _ & Hc' & _).
    unfold fill_rows in Hc'. fold prev in Hc'.
    rewrite fill_row_lookup, Hc', Hc, IH.
    repeat destruct decide; try nia; try reflexivity.
    replace (i0 * c + j0 - r * c)%nat with j0 by nia.
    replace r with i0 by nia. reflexivity.
Qed.

(** The loops as a whole: one [pixel]-like function applied cell by cell. *)
Lemma fill_rows_data g r c out :
  cols out = c -> length (data out) = (r * c)%nat ->
  data (fill_rows g r c out) =
    (fun k => Sc_int (g (k / c)%nat (k mod c)%nat)) <$> seq 0 (r * c).
Proof.
  intros Hc Hl. apply list_eq. intros k.
  destruct (fill_rows_header g r c out) as (_ & _ & _ & Hl').
  rewrite list_lookup_fmap.
  destruct (decide (k < r * c)%nat) as [Hk|Hk].
  - assert (0 < c)%nat as Hpos by nia.
    rewrite lookup_seq_lt by assumption. simpl.
    pose proof (Nat.div_mod_eq k c) as Hdm.
    pose proof (Nat.mod_upper_bound k c ltac:(lia)) as Hm.
    replace k with ((k / c) * c + k mod c)%nat at 1 by lia.
    rewrite fill_rows_lookup by assumption.
    destruct decide as [Hi|Hi]; [|nia].
    replace ((k / c) * c + k mod c)%nat with k by lia.
    destruct (data out !! k) eqn:E; [reflexivity|].
    apply lookup_ge_None_1 in E. lia.
  - rewrite lookup_seq_ge by lia. simpl.
    apply lookup_ge_None_2. lia.
Qed.

(** ** Normal forms of exact conversions *)

Lemma digits2_pos_bounds (p : positive) :
  2 ^ (Zpos (digits2_pos p) - 1) <= Zpos p < 2 ^ Zpos (digits2_pos p).
Proof.
  induction p as [p IH|p IH|]; simpl digits2_pos.
  - rewrite Pos2Z.inj_succ, Z.pow_succ_r by lia.
    replace (Z.succ (Zpos (digits2_pos p)) - 1) with (Z.succ (Zpos (digits2_pos p) - 1)) by lia.
    rewrite Z.pow_succ_r by lia. lia.
  - rewrite Pos2Z.inj_succ, Z.pow_succ_r by lia.
    replace (Z.succ (Zpos (digits2_pos p)) - 1) with (Z.succ (Zpos (digits2_pos p) - 1)) by lia.
    rewrite Z.pow_succ_r by lia. lia.
  - simpl. lia.
Qed.

Lemma iter_xO_mul (p k : positive) : Zpos (Pos.iter xO p k) = Zpos p * 2 ^ Zpos k.
Proof.
  induction k as [|k IH] using Pos.peano_ind.
  - simpl. lia.
  - rewrite Pos.iter_succ, Pos2Z.inj_succ, Z.pow_succ_r by lia.
    rewrite Pos2Z.inj_xO, IH. lia.
Qed.

Lemma digits2_pos_iter_xO (p k : positive) :
  digits2_pos (Pos.iter xO p k) = (digits2_pos p + k)%positive.
Proof.
  induction k as [|k IH] using Pos.peano_ind.
  - simpl. lia.
  - rewrite Pos.iter_succ. simpl. rewrite IH. lia.
Qed.

Section ExactConversions.
Variables prec emax : Z.
Hypothesis prec_pos : 0 < prec.
Hypothesis prec_lt_emax : prec < emax.

Lemma binary_round_aux_exact (s : bool) (m : positive) (e : Z) :
  fexp prec emax (Zpos (digits2_pos m) + e) = e ->
  e <= emax - prec ->
  binary_round_aux prec emax s (Zpos m) e loc_Exact = S754_finite s m e.
Proof.
  intros Hc He. unfold binary_round_aux, shr_fexp. simpl Zdigits2.
  rewrite Hc, Z.sub_diag. simpl.
  rewrite Hc, Z.sub_diag. simpl.
  apply Z.leb_le in He. rewrite He. reflexivity.
Qed.

Lemma binary_round_exact (s : bool) (m : positive) (e : Z) :
  Zpos (digits2_pos m) <= prec ->
  emin prec emax <= Zpos (digits2_pos m) + e - prec <= emax - prec ->
  binary_round prec emax s m e =
    S754_finite s (Z.to_pos (Zpos m * 2 ^ (prec - Zpos (digits2_pos m))))
                (Zpos (digits2_pos m) + e - prec).
Proof.
  intros Hd He. unfold binary_round, shl_align.
  assert (fexp prec emax (Zpos (digits2_pos m) + e) = Zpos (digits2_pos m) + e - prec) as Hf
    by (unfold fexp; lia).
  rewrite Hf.
  destruct (Zpos (digits2_pos m) + e - prec - e) as [|k|k] eqn:Hk; try lia.
  - replace (prec - Zpos (digits2_pos m)) with 0 by lia.
    rewrite Z.mul_1_r. simpl Z.to_pos.
    replace (Zpos (digits2_pos m) + e - prec) with e by lia.
    apply binary_round_aux_exact; [unfold fexp; lia | lia].
  - replace (prec - Zpos (digits2_pos m)) with (Zpos k) by lia.
    rewrite <- iter_xO_mul. simpl Z.to_pos.
    apply binary_round_aux_exact; [|lia].
    rewrite digits2_pos_iter_xO. unfold fexp. lia.
Qed.
End ExactConversions.

Lemma F64_of_Z_pos (p : positive) :
  Zpos p < 2 ^ 53 ->
  F64.of_Z (Zpos p) =
    S754_finite false (Z.to_pos (Zpos p * 2 ^ (53 - Zpos (digits2_pos p))))
                (Zpos (digits2_pos p) - 53).
Proof.
  intros Hp. unfold F64.of_Z, binary_normalize.
  pose proof (digits2_pos_bounds p) as [Hlo _].
  assert (Zpos (digits2_pos p) <= 53) as Hd.
  { destruct (Z_le_gt_dec (Zpos (digits2_pos p)) 53) as [|Hgt]; [assumption|].
    assert (2 ^ 53 <= 2 ^ (Zpos (digits2_pos p) - 1)) by (apply Z.pow_le_mono_r; lia).
    lia. }
  rewrite binary_round_exact; unfold F64.prec, F64.emax, emin; try lia.
  f_equal; lia.
Qed.

Lemma SFgtb_F64_of_Z (z : Z) :
  in_int32 z = true ->
  SFgtb (F64.of_Z z) (F64.mul (F64.of_Z kMaxDepthMeters) kMetersToMillimeters) = (15000 <? z).
Proof.
  intros Hz. unfold in_int32, INT32_MIN, INT32_MAX in Hz.
  apply andb_true_iff in Hz as [Hlo Hhi]. apply Z.leb_le in Hlo, Hhi.
  change (F64.mul (F64.of_Z kMaxDepthMeters) kMetersToMillimeters)
    with (S754_finite false 8246337208320000 (-39)).
  destruct z as [|p|p].
  - reflexivity.
  - rewrite F64_of_Z_pos by lia.
    pose proof (digits2_pos_bounds p) as [Hdlo Hdhi].
    set (d := Zpos (digits2_pos p)) in *.
    unfold SFgtb, SFltb, SFcompare.
    destruct (Z.compare_spec (-39) (d - 53)) as [He|He|He].
    + assert (d = 14) as Hd by lia. rewrite Hd in *.
      change (2 ^ (53 - 14)) with 549755813888.
      rewrite Pos.compare_cont_spec.
      assert ((8246337208320000 ?= Z.to_pos (Zpos p * 549755813888))%positive
              = (15000 ?= Zpos p)) as Hcmp.
      { simpl Z.to_pos.
        change 8246337208320000%positive with (15000 * 549755813888)%positive.
        rewrite Pos.mul_compare_mono_r. reflexivity. }
      rewrite Hcmp.
      destruct (Z.compare_spec 15000 (Zpos p)); simpl; symmetry;
        [apply Z.ltb_ge | apply Z.ltb_lt | apply Z.ltb_ge]; lia.
    + symmetry. apply Z.ltb_lt.
      assert (2 ^ 14 <= 2 ^ (d - 1)) by (apply Z.pow_le_mono_r; lia).
      change (2 ^ 14) with 16384 in *. lia.
    + symmetry. apply Z.ltb_ge.
      assert (2 ^ d <= 2 ^ 13) by (apply Z.pow_le_mono_r; lia).
      change (2 ^ 13) with 8192 in *. lia.
  - unfold F64.of_Z, binary_normalize.
    pose proof (digits2_pos_bounds p) as [Hdlo Hdhi].
    assert (Zpos (digits2_pos p) <= 53) as Hd.
    { destruct (Z_le_gt_dec (Zpos (digits2_pos p)) 53) as [|Hgt]; [assumption|].
      assert (2 ^ 53 <= 2 ^ (Zpos (digits2_pos p) - 1)) by (apply Z.pow_le_mono_r; lia).
      lia. }
    rewrite binary_round_exact; unfold F64.prec, F64.emax, emin; try lia.
    reflexivity.
Qed.

(** ** Rounding, on fractions *)

Lemma shr_1_nonneg (m : Z) (r s : bool) :
  0 <= m ->
  shr_1 {| shr_m := m; shr_r := r; shr_s := s |} =
    {| shr_m := m / 2; shr_r := Z.odd m; shr_s := r || s |}.
Proof.
  intros Hm. rewrite <- Z.div2_div.
  destruct m as [|[p|p|]|]; try lia; reflexivity.
Qed.

Lemma shr_1_frac (N D : Z) :
  0 <= N -> 0 < D -> shr_1 (rec_frac N D) = rec_frac N (2 * D).
Proof.
  intros HN HD. unfold rec_frac, loc_frac.
  pose proof (Z.mod_pos_bound N D HD) as Hrho.
  pose proof (Z.div_pos N D HN HD) as Hm.
  assert (N / (2 * D) = N / D / 2) as Hq.
  { rewrite (Z.mul_comm 2 D). symmetry. apply Z.div_div; lia. }
  assert (N mod (2 * D) = N mod D + D * (if Z.odd (N / D) then 1 else 0)) as Hr.
  { rewrite (Z.mul_comm 2 D), Z.rem_mul_r by lia. rewrite Zmod_odd. reflexivity. }
  rewrite Hq, Hr.
  destruct (N mod D =? 0) eqn:E0.
  - apply Z.eqb_eq in E0. rewrite E0.
    change (shr_record_of_loc (N / D) loc_Exact)
      with {| shr_m := N / D; shr_r := false; shr_s := false |}.
    rewrite shr_1_nonneg by assumption.
    destruct (Z.odd (N / D)).
    + replace (0 + D * 1 =? 0) with false by (symmetry; apply Z.eqb_neq; lia).
      replace (2 * (0 + D * 1) ?= 2 * D) with Eq by (symmetry; apply Z.compare_eq_iff; lia).
      reflexivity.
    + replace (0 + D * 0 =? 0) with true by (symmetry; apply Z.eqb_eq; lia).
      reflexivity.
  - apply Z.eqb_neq in E0.
    assert (shr_1 (shr_record_of_loc (N / D) (loc_Inexact (2 * (N mod D) ?= D))) =
            {| shr_m := N / D / 2; shr_r := Z.odd (N / D); shr_s := true |}) as ->.
    { destruct (2 * (N mod D) ?= D); unfold shr_record_of_loc;
        rewrite shr_1_nonneg by assumption; reflexivity. }
    destruct (Z.odd (N / D)).
    + replace (N mod D + D * 1 =? 0) with false by (symmetry; apply Z.eqb_neq; lia).
      replace (2 * (N mod D + D * 1) ?= 2 * D) with Gt
        by (symmetry; apply Z.compare_gt_iff; lia).
      reflexivity.
    + replace (N mod D + D * 0 =? 0) with false by (symmetry; apply Z.eqb_neq; lia).
      replace (2 * (N mod D + D * 0) ?= 2 * D) with Lt
        by (symmetry; apply Z.compare_lt_iff; lia).
      reflexivity.
Qed.

Lemma iter_pos_shr_1_frac (n : positive) (N D : Z) :
  0 <= N -> 0 < D ->
  SpecFloat.iter_pos shr_1 n (rec_frac N D) = rec_frac N (D * 2 ^ Zpos n).
Proof.
  intros HN. revert D. induction n as [n IH|n IH|]; intros D HD; simpl SpecFloat.iter_pos.
  - assert (0 < 2 ^ Zpos n) as Hpow by (apply Z.pow_pos_nonneg; lia).
    rewrite shr_1_frac, IH, IH by nia.
    f_equal. replace (Zpos n~1) with (Zpos n + Zpos n + 1) by lia.
    rewrite !Z.pow_add_r, Z.pow_1_r by lia. ring.
  - assert (0 < 2 ^ Zpos n) as Hpow by (apply Z.pow_pos_nonneg; lia).
    rewrite IH, IH by nia.
    f_equal. replace (Zpos n~0) with (Zpos n + Zpos n) by lia.
    rewrite !Z.pow_add_r by lia. ring.
  - rewrite shr_1_frac by assumption. f_equal. lia.
Qed.

Lemma shr_frac (N D e n : Z) :
  0 <= N -> 0 < D ->
  shr (rec_frac N D) e n = (rec_frac N (D * 2 ^ Z.max n 0), e + Z.max n 0).
Proof.
  intros HN HD. destruct n as [|n|n]; simpl shr.
  - rewrite Z.mul_1_r, Z.add_0_r. reflexivity.
  - rewrite iter_pos_shr_1_frac by assumption. reflexivity.
  - rewrite Z.mul_1_r, Z.add_0_r. reflexivity.
Qed.

Lemma rec_frac_exact (m : Z) : shr_record_of_loc m loc_Exact = rec_frac m 1.
Proof.
  unfold rec_frac, loc_frac. rewrite Z.mod_1_r, Z.div_1_r. reflexivity.
Qed.

Lemma shr_m_rec_frac (N D : Z) : shr_m (rec_frac N D) = N / D.
Proof. unfold rec_frac. destruct (loc_frac N D) as [|[]]; reflexivity. Qed.

Lemma loc_of_rec_frac (N D : Z) : loc_of_shr_record (rec_frac N D) = loc_frac N D.
Proof. unfold rec_frac. destruct (loc_frac N D) as [|[]]; reflexivity. Qed.

Lemma new_location_frac (N D : Z) :
  0 < D -> new_location D (N mod D) = loc_frac N D.
Proof.
  intros HD. pose proof (Z.mod_pos_bound N D HD) as Hr.
  unfold new_location, new_location_even, new_location_odd, loc_frac.
  destruct (Z.even D) eqn:Ev; [reflexivity|].
  destruct (N mod D =? 0); [reflexivity|]. f_equal.
  assert (D mod 2 = 1) as Hodd.
  { rewrite Zmod_odd, <- Z.negb_even, Ev. reflexivity. }
  pose proof (Z.div_mod D 2 ltac:(lia)) as Hdm.
  destruct (Z.compare_spec (2 * (N mod D) + 1) D);
    destruct (Z.compare_spec (2 * (N mod D)) D); try reflexivity; lia.
Qed.

(** Rounding to nearest even is monotone in the fraction. *)
Lemma rneZ_bounds (N D : Z) : 0 < D -> N / D <= rneZ N D <= N / D + 1.
Proof.
  intros HD. unfold rneZ, round_nearest_even.
  destruct (loc_frac N D) as [|[]]; try lia.
  destruct (Z.even (N / D)); lia.
Qed.

Lemma rneZ_mono (N D N' D' : Z) :
  0 < D -> 0 < D' -> N * D' <= N' * D -> rneZ N D <= rneZ N' D'.
Proof.
  intros HD HD' Hle.
  pose proof (Z.mod_pos_bound N D HD) as Hr.
  pose proof (Z.mod_pos_bound N' D' HD') as Hr'.
  pose proof (Z.div_mod N D ltac:(lia)) as HN.
  pose proof (Z.div_mod N' D' ltac:(lia)) as HN'.
  pose proof (rneZ_bounds N D HD) as Hb.
  pose proof (rneZ_bounds N' D' HD') as Hb'.
  set (q := N / D) in *. set (q' := N' / D') in *.
  set (r := N mod D) in *. set (r' := N' mod D') in *.
  assert (q <= q') as Hq.
  { destruct (Z_le_gt_dec q q') as [|Hgt]; [assumption|exfalso].
    assert (q' + 1 <= q) as Hq1 by lia.
    assert ((q' + 1) * D' * D <= q * D * D') by nia.
    assert (N' * D < (q' + 1) * D' * D) by nia.
    assert (q * D * D' <= N * D') by nia.
    lia. }
  destruct (Z.eq_dec q q') as [Heq|Hne]; [|lia].
  assert (r * D' <= r' * D) as Hrr by nia.
  unfold rneZ, loc_frac, round_nearest_even. fold q q' r r'. rewrite <- Heq.
  destruct (Z.eqb_spec r 0) as [E0|E0]; destruct (Z.eqb_spec r' 0) as [E0'|E0'].
  - lia.
  - destruct (2 * r' ?= D'); try destruct (Z.even q); lia.
  - nia.
  - clear HN HN' Hb Hb' Hle Hq.
    destruct (Z.compare_spec (2 * r) D) as [Hc|Hc|Hc];
      destruct (Z.compare_spec (2 * r') D') as [Hc'|Hc'|Hc'];
      try destruct (Z.even q); try lia; exfalso.
    all: assert (2 * r * D' <= 2 * r' * D) as H2 by lia.
    all: try (rewrite Hc in H2).
    all: try (assert (2 * r' * D < D' * D) by (apply Z.mul_lt_mono_pos_r; lia)).
    all: try (assert (D * D' < 2 * r * D') by (apply Z.mul_lt_mono_pos_r; lia)).
    all: try (assert (2 * r' * D = D' * D) by (rewrite Hc'; reflexivity)).
    all: lia.
Qed.

Lemma Zdigits2_pos_bounds (m : Z) :
  0 < m -> 0 < Zdigits2 m /\ 2 ^ (Zdigits2 m - 1) <= m < 2 ^ Zdigits2 m.
Proof.
  destruct m as [|p|p]; try lia. intros _. simpl Zdigits2.
  split; [lia | apply digits2_pos_bounds].
Qed.

(** [m] has at most [k] digits as soon as [m < 2 ^ k]. *)
Lemma Zdigits2_le (m k : Z) : 0 <= m -> 0 <= k -> m < 2 ^ k -> Zdigits2 m <= k.
Proof.
  intros Hm Hk Hlt. destruct (Z.eq_dec m 0) as [->|Hne]; [simpl; lia|].
  destruct (Zdigits2_pos_bounds m ltac:(lia)) as (Hd & Hlo & _).
  destruct (Z_le_gt_dec (Zdigits2 m) k) as [|Hgt]; [assumption|exfalso].
  assert (2 ^ k <= 2 ^ (Zdigits2 m - 1)) by (apply Z.pow_le_mono_r; lia). lia.
Qed.

Lemma Zdigits2_ge (m k : Z) : 0 <= k -> 2 ^ k <= m -> k + 1 <= Zdigits2 m.
Proof.
  intros Hk Hle. assert (0 < 2 ^ k) by (apply Z.pow_pos_nonneg; lia).
  destruct (Zdigits2_pos_bounds m ltac:(lia)) as (Hd & _ & Hhi).
  destruct (Z_le_gt_dec (k + 1) (Zdigits2 m)) as [|Hgt]; [assumption|exfalso].
  assert (2 ^ Zdigits2 m <= 2 ^ k) by (apply Z.pow_le_mono_r; lia). lia.
Qed.

Lemma Z_div_eucl_div_mod (a b : Z) : Z.div_eucl a b = (a / b, a mod b).
Proof. unfold Z.div, Z.modulo. destruct (Z.div_eucl a b). reflexivity. Qed.

Lemma shiftl_match (m s : Z) :
  0 <= s ->
  match s with Z0 => m | Zpos _ => Z.shiftl m s | Zneg _ => 0 end = m * 2 ^ s.
Proof.
  intros Hs. destruct s as [|k|k]; try lia.
  apply Z.shiftl_mul_pow2. lia.
Qed.

Section Format.
Variables prec emax : Z.
Hypothesis prec_pos : 0 < prec.

Local Abbreviation emin := (emin prec emax).
Local Abbreviation fexp := (fexp prec emax).

Lemma binary_round_aux_frac (s : bool) (N D e : Z) :
  0 <= N -> 0 < D ->
  binary_round_aux prec emax s (N / D) e (loc_frac N D) =
    let n1 := Z.max (fexp (Zdigits2 (N / D) + e) - e) 0 in
    finalize prec emax s (e + n1) (rneZ N (D * 2 ^ n1)).
Proof.
  intros HN HD. unfold binary_round_aux, shr_fexp.
  change (shr_record_of_loc (N / D) (loc_frac N D)) with (rec_frac N D).
  rewrite shr_frac by assumption.
  set (n1 := Z.max (fexp (Zdigits2 (N / D) + e) - e) 0).
  assert (0 < D * 2 ^ n1) as HD1.
  { assert (0 < 2 ^ n1) by (apply Z.pow_pos_nonneg; lia). nia. }
  cbv zeta. rewrite shr_m_rec_frac, loc_of_rec_frac. fold (rneZ N (D * 2 ^ n1)).
  pose proof (rneZ_bounds N (D * 2 ^ n1) HD1) as [Hlo _].
  pose proof (Z.div_pos N (D * 2 ^ n1) HN HD1) as Hm1.
  rewrite rec_frac_exact, shr_frac by lia.
  rewrite shr_m_rec_frac, Z.mul_1_l. reflexivity.
Qed.

(** [SFdiv] on two finite operands: the scaled operands whose quotient is
    rounded, and the facts that place the quotient in its binade. *)
Lemma SFdiv_finite (sx sy : bool) (mx my : positive) (ex ey : Z) :
  exists s n1 : Z,
    0 <= s /\ 0 <= n1
    /\ SFdiv prec emax (S754_finite sx mx ex) (S754_finite sy my ey) =
         finalize prec emax (xorb sx sy) (ex - ey - s + n1)
                  (rneZ (Zpos mx * 2 ^ s) (Zpos my * 2 ^ n1))
    /\ emin <= ex - ey - s + n1
    /\ Zpos mx * 2 ^ s < Zpos my * 2 ^ n1 * 2 ^ prec
    /\ (emin < ex - ey - s + n1 ->
        2 ^ (prec - 1) * (Zpos my * 2 ^ n1) <= Zpos mx * 2 ^ s).
Proof.
  set (dx := Zpos (digits2_pos mx)). set (dy := Zpos (digits2_pos my)).
  set (g := dx + ex - (dy + ey)).
  set (e' := Z.min (fexp g) (ex - ey)).
  set (s := ex - ey - e').
  assert (0 <= s) as Hs by (unfold s, e'; lia).
  set (N := Zpos mx * 2 ^ s).
  assert (0 < 2 ^ s) as Hps by (apply Z.pow_pos_nonneg; lia).
  assert (0 < N) as HN by (unfold N; nia).
  set (q := N / Zpos my).
  set (n1 := Z.max (fexp (Zdigits2 q + e') - e') 0).
  exists s, n1.
  assert (0 <= n1) as Hn1 by (unfold n1; lia).
  assert (0 < 2 ^ n1) as Hpn1 by (apply Z.pow_pos_nonneg; lia).
  assert (ex - ey - s + n1 = e' + n1) as He1 by (unfold s; lia).
  pose proof (digits2_pos_bounds mx) as [Hxlo Hxhi]. fold dx in Hxlo, Hxhi.
  pose proof (digits2_pos_bounds my) as [Hylo Hyhi]. fold dy in Hylo, Hyhi.
  assert (0 <= q) as Hq by (apply Z.div_pos; lia).
  pose proof (Z.div_mod N (Zpos my) ltac:(lia)) as HNq. fold q in HNq.
  pose proof (Z.mod_pos_bound N (Zpos my) ltac:(lia)) as Hrem.
  split; [assumption|]. split; [assumption|]. split.
  { (* the computation *)
    unfold SFdiv, SFdiv_core_binary. simpl Zdigits2.
    fold dx dy g e' s.
    assert (match s with Z0 => Zpos mx | Zpos _ => Z.shiftl (Zpos mx) s | Zneg _ => 0 end
            = N) as ->.
    { unfold N. apply shiftl_match. assumption. }
    rewrite Z_div_eucl_div_mod, new_location_frac by lia.
    rewrite binary_round_aux_frac by lia.
    cbv zeta. fold q n1. rewrite He1. reflexivity. }
  rewrite He1.
  (* the binade *)
  assert (q = 0 -> e' + n1 = emin) as Hq0.
  { intros Hq0. unfold n1. rewrite Hq0. simpl Zdigits2.
    assert (N < Zpos my) as Hlt by lia.
    assert (g - prec < emin) as Hg.
    { destruct (Z_lt_ge_dec (g - prec) emin) as [|Hge]; [assumption|exfalso].
      assert (e' <= g - prec) as He' by (unfold e', SpecFloat.fexp; lia).
      assert (prec - dx + dy <= s) as Hs' by (unfold s, g in *; lia).
      destruct (Z_le_gt_dec 0 (prec - dx + dy)) as [Hnn|Hneg].
      - assert (2 ^ (dx - 1) * 2 ^ (prec - dx + dy) <= N) as HNlo.
        { unfold N.
          apply Z.mul_le_mono_nonneg;
            [apply Z.pow_nonneg; lia | exact Hxlo
            |apply Z.pow_nonneg; lia | apply Z.pow_le_mono_r; lia]. }
        rewrite <- Z.pow_add_r in HNlo by lia.
        assert (2 ^ dy <= 2 ^ (dx - 1 + (prec - dx + dy)))
          by (apply Z.pow_le_mono_r; lia).
        lia.
      - assert (2 ^ dy <= 2 ^ (dx - 1)) by (apply Z.pow_le_mono_r; lia).
        assert (Zpos mx * 1 <= N) by (unfold N; apply Z.mul_le_mono_nonneg_l; lia).
        lia. }
    unfold e', SpecFloat.fexp in *. lia. }
  assert (0 < q -> e' + n1 = fexp (Zdigits2 q + e')) as Hqpos.
  { intros Hqpos.
    assert (g <= Zdigits2 q + e') as Hg.
    { destruct (Z_le_gt_dec (dx + s - dy) 0) as [Hsmall|Hbig].
      - destruct (Zdigits2_pos_bounds q Hqpos) as (Hd & _). unfold g, s. lia.
      - assert (2 ^ (dx - 1 + s - dy) <= q) as Hqlo.
        { unfold q. apply Z.div_le_lower_bound; [lia|].
          assert (Zpos my * 2 ^ (dx - 1 + s - dy) <= 2 ^ dy * 2 ^ (dx - 1 + s - dy))
            by (apply Z.mul_le_mono_nonneg_r; [apply Z.pow_nonneg; lia | lia]).
          rewrite <- Z.pow_add_r in H by lia.
          replace (dy + (dx - 1 + s - dy)) with (dx - 1 + s) in H by lia.
          assert (2 ^ (dx - 1) * 2 ^ s <= N)
            by (unfold N; apply Z.mul_le_mono_nonneg_r; lia).
          rewrite <- Z.pow_add_r in H0 by lia. lia. }
        pose proof (Zdigits2_ge q (dx - 1 + s - dy) ltac:(lia) Hqlo).
        unfold g, s. lia. }
    unfold n1, e', SpecFloat.fexp in *. lia. }
  assert (q / 2 ^ n1 < 2 ^ prec) as Hm1.
  { apply Z.div_lt_upper_bound; [lia|].
    destruct (Z.eq_dec q 0) as [->|Hne].
    { assert (0 < 2 ^ prec) by (apply Z.pow_pos_nonneg; lia). nia. }
    destruct (Zdigits2_pos_bounds q ltac:(lia)) as (Hd & _ & Hhi).
    assert (Zdigits2 q <= n1 + prec) by (unfold n1, SpecFloat.fexp; lia).
    rewrite <- Z.pow_add_r by lia.
    assert (2 ^ Zdigits2 q <= 2 ^ (n1 + prec)) by (apply Z.pow_le_mono_r; lia).
    lia. }
  assert (N / (Zpos my * 2 ^ n1) = q / 2 ^ n1) as Hdd
    by (unfold q; symmetry; apply Z.div_div; lia).
  split; [|split].
  - destruct (Z.eq_dec q 0) as [Hz|Hnz].
    + rewrite (Hq0 Hz). lia.
    + rewrite (Hqpos ltac:(lia)). unfold SpecFloat.fexp. lia.
  - assert (0 < Zpos my * 2 ^ n1) as HD1 by nia.
    pose proof (Z.div_mod N (Zpos my * 2 ^ n1) ltac:(lia)) as Hdm.
    pose proof (Z.mod_pos_bound N (Zpos my * 2 ^ n1) HD1) as Hmb.
    rewrite Hdd in Hdm. fold N. nia.
  - intros He.
    destruct (Z.eq_dec q 0) as [Hz|Hnz]; [rewrite (Hq0 Hz) in He; lia|].
    pose proof (Hqpos ltac:(lia)) as Hfe. rewrite Hfe in He.
    destruct (Zdigits2_pos_bounds q ltac:(lia)) as (Hd & Hlo & _).
    assert (n1 = Zdigits2 q - prec) as Hn1eq by (unfold SpecFloat.fexp in *; lia).
    fold N.
    assert (2 ^ (prec - 1) * 2 ^ n1 = 2 ^ (Zdigits2 q - 1)) as Hpw.
    { rewrite <- Z.pow_add_r by lia. f_equal. lia. }
    nia.
Qed.
Lemma finalize_not_nan (s : bool) (e1 m2 : Z) :
  0 <= m2 ->
  match finalize prec emax s e1 m2 with
  | S754_zero s' | S754_infinity s' | S754_finite s' _ _ => s' = s
  | S754_nan => False
  end.
Proof.
  intros Hm. unfold finalize.
  set (n2 := Z.max _ 0).
  assert (0 < 2 ^ n2) by (apply Z.pow_pos_nonneg; lia).
  pose proof (Z.div_pos m2 (2 ^ n2) Hm ltac:(lia)) as Hd.
  destruct (m2 / 2 ^ n2); try lia; [reflexivity|].
  destruct (_ <=? _); reflexivity.
Qed.

Lemma finalize_spec (s : bool) (e1 m2 : Z) :
  emin <= e1 -> 0 <= m2 <= 2 ^ prec ->
  finalize prec emax s e1 m2 =
    if m2 =? 0 then S754_zero s
    else if m2 <? 2 ^ prec then
      if e1 <=? emax - prec then S754_finite s (Z.to_pos m2) e1 else S754_infinity s
    else
      if e1 + 1 <=? emax - prec then S754_finite s (Z.to_pos (2 ^ (prec - 1))) (e1 + 1)
      else S754_infinity s.
Proof.
  intros He [Hlo Hhi]. unfold finalize.
  destruct (Z.eqb_spec m2 0) as [->|Hne].
  - simpl Zdigits2.
    replace (Z.max (fexp (0 + e1) - e1) 0) with 0 by (unfold SpecFloat.fexp; lia).
    reflexivity.
  - destruct (Z.ltb_spec m2 (2 ^ prec)) as [Hlt|Hge].
    + pose proof (Zdigits2_le m2 prec ltac:(lia) ltac:(lia) Hlt) as Hd.
      destruct (Zdigits2_pos_bounds m2 ltac:(lia)) as (Hd0 & _).
      replace (Z.max (fexp (Zdigits2 m2 + e1) - e1) 0) with 0
        by (unfold SpecFloat.fexp; lia).
      rewrite Z.pow_0_r, Z.div_1_r, Z.add_0_r.
      destruct m2 as [|m|m]; try lia. reflexivity.
    + assert (m2 = 2 ^ prec) as -> by lia.
      assert (Zdigits2 (2 ^ prec) = prec + 1) as Hd.
      { apply Z.le_antisymm.
        - apply Zdigits2_le; try lia.
          rewrite Z.pow_add_r, Z.pow_1_r by lia. lia.
        - apply Zdigits2_ge; lia. }
      rewrite Hd.
      replace (Z.max (fexp (prec + 1 + e1) - e1) 0) with 1
        by (unfold SpecFloat.fexp; lia).
      rewrite Z.pow_1_r.
      replace (2 ^ prec / 2) with (2 ^ (prec - 1)).
      2:{ replace prec with (prec - 1 + 1) at 2 by lia.
          rewrite Z.pow_add_r, Z.pow_1_r by lia.
          rewrite Z.div_mul by lia. reflexivity. }
      assert (0 < 2 ^ (prec - 1)) as Hp by (apply Z.pow_pos_nonneg; lia).
      destruct (2 ^ (prec - 1)) as [|m|m]; try lia. reflexivity.
Qed.

(** The results of two roundings come in the order of their cells. *)
Lemma finalize_le (e1 m2 e1' m2' : Z) :
  emin <= e1 -> emin <= e1' ->
  0 <= m2 <= 2 ^ prec -> 0 <= m2' <= 2 ^ prec ->
  (emin < e1' -> 2 ^ (prec - 1) <= m2') ->
  e1 < e1' \/ (e1 = e1' /\ m2 <= m2') ->
  SFleb (finalize prec emax false e1 m2) (finalize prec emax false e1' m2') = true.
Proof.
  intros He He' Hm Hm' Hnorm Hlex.
  rewrite !finalize_spec by assumption.
  assert (0 < 2 ^ (prec - 1)) as Hp by (apply Z.pow_pos_nonneg; lia).
  assert (2 ^ prec = 2 * 2 ^ (prec - 1)) as Hpp.
  { replace prec with (prec - 1 + 1) at 1 by lia.
    rewrite Z.pow_add_r, Z.pow_1_r by lia. lia. }
  assert (forall a b e : Z, 0 < a -> a <= b ->
            SFleb (S754_finite false (Z.to_pos a) e) (S754_finite false (Z.to_pos b) e) = true)
    as Hsame.
  { intros a b e Ha Hab. unfold SFleb, SFcompare. rewrite Z.compare_refl.
    rewrite Pos.compare_cont_spec.
    destruct (Pos.compare_spec (Z.to_pos a) (Z.to_pos b)) as [E|E|E]; try reflexivity.
    apply Pos2Z.pos_lt_pos in E. rewrite !Z2Pos.id in E by lia. lia. }
  assert (forall (a b : positive) (e e' : Z), e < e' ->
            SFleb (S754_finite false a e) (S754_finite false b e') = true) as Hless.
  { intros a b e e' Hee. unfold SFleb, SFcompare.
    apply Z.compare_lt_iff in Hee. rewrite Hee. reflexivity. }
  destruct (Z.eqb_spec m2 0) as [Hz|Hnz]; destruct (Z.eqb_spec m2' 0) as [Hz'|Hnz'].
  - reflexivity.
  - repeat destruct (_ <? _); repeat destruct (_ <=? _); reflexivity.
  - exfalso. lia.
  - destruct (Z.ltb_spec m2 (2 ^ prec)) as [Hlt|Hge];
      destruct (Z.ltb_spec m2' (2 ^ prec)) as [Hlt'|Hge'];
      destruct (Z.leb_spec e1 (emax - prec));
      destruct (Z.leb_spec e1' (emax - prec));
      destruct (Z.leb_spec (e1 + 1) (emax - prec));
      destruct (Z.leb_spec (e1' + 1) (emax - prec));
      try lia; try reflexivity.
    all: try (apply Hless; lia).
    all: destruct Hlex as [Hlt1|[Heq Hle]]; try lia.
    all: try (apply Hless; lia).
    all: try (subst e1'; apply Hsame; lia).
    all: try (replace (e1 + 1) with e1' by lia; apply Hsame; lia).
    all: destruct (Z.eq_dec (e1 + 1) e1') as [<-|Hne];
      [apply Hsame; lia | apply Hless; lia].
Qed.
(** Dividing a positive numerator by a larger positive divisor gives a
    quotient that is not larger, roundings included. The divisors are
    compared by value: [my' * 2 ^ ey' <= my * 2 ^ ey]. *)
Lemma SFdiv_antitone (mx my my' : positive) (ex ey ey' : Z) :
  ey' <= ey -> Zpos my' <= Zpos my * 2 ^ (ey - ey') ->
  SFleb (SFdiv prec emax (S754_finite false mx ex) (S754_finite false my ey))
        (SFdiv prec emax (S754_finite false mx ex) (S754_finite false my' ey')) = true.
Proof.
  intros Hey Hmy.
  destruct (SFdiv_finite false false mx my ex ey)
    as (s & n1 & Hs & Hn1 & -> & He1 & Hhi & Hlo).
  destruct (SFdiv_finite false false mx my' ex ey')
    as (s' & n1' & Hs' & Hn1' & -> & He1' & Hhi' & Hlo').
  simpl xorb.
  set (e1 := ex - ey - s + n1) in *. set (e1' := ex - ey' - s' + n1') in *.
  set (dl := ey - ey') in *.
  assert (0 < 2 ^ s) as Ps by (apply Z.pow_pos_nonneg; lia).
  assert (0 < 2 ^ n1) as Pn1 by (apply Z.pow_pos_nonneg; lia).
  assert (0 < 2 ^ s') as Ps' by (apply Z.pow_pos_nonneg; lia).
  assert (0 < 2 ^ n1') as Pn1' by (apply Z.pow_pos_nonneg; lia).
  assert (0 < 2 ^ prec) as Pp by (apply Z.pow_pos_nonneg; lia).
  assert (0 < 2 ^ (prec - 1)) as Pp1 by (apply Z.pow_pos_nonneg; lia).
  assert (0 < 2 ^ dl) as Pdl by (apply Z.pow_pos_nonneg; lia).
  set (N := Zpos mx * 2 ^ s) in *. set (D := Zpos my * 2 ^ n1) in *.
  set (N' := Zpos mx * 2 ^ s') in *. set (D' := Zpos my' * 2 ^ n1') in *.
  assert (0 < D) as HD by (unfold D; nia).
  assert (0 < D') as HD' by (unfold D'; nia).
  assert (0 < N) as HN by (unfold N; nia).
  assert (0 < N') as HN' by (unfold N'; nia).
  assert (forall A B : Z, 0 < A -> 0 < B -> A < B * 2 ^ prec ->
            0 <= rneZ A B <= 2 ^ prec) as Hbound.
  { intros A B HA HB HAB.
    pose proof (rneZ_bounds A B HB) as [Hl Hu].
    pose proof (Z.div_pos A B ltac:(lia) HB).
    assert (A / B < 2 ^ prec) by (apply Z.div_lt_upper_bound; lia).
    lia. }
  apply finalize_le; try assumption.
  - apply Hbound; assumption.
  - apply Hbound; assumption.
  - intros He. specialize (Hlo' He).
    pose proof (rneZ_bounds N' D' HD') as [Hl _].
    assert (2 ^ (prec - 1) <= N' / D') by (apply Z.div_le_lower_bound; lia).
    lia.
  - (* the cells *)
    assert (e1 <= e1') as Hcell.
    { destruct (Z_le_gt_dec e1 e1') as [|Hgt]; [assumption|exfalso].
      specialize (Hlo ltac:(lia)).
      assert (dl + n1' + prec + s <= prec - 1 + n1 + s') as Hexp
        by (unfold e1, e1', dl in *; lia).
      assert (2 ^ (dl + n1' + prec + s) <= 2 ^ (prec - 1 + n1 + s')) as Hpow
        by (apply Z.pow_le_mono_r; lia).
      rewrite !Z.pow_add_r in Hpow by lia.
      unfold N, D, N', D' in *.
      assert (2 ^ (prec - 1) * (Zpos my * 2 ^ n1) * 2 ^ s' <= Zpos mx * 2 ^ s * 2 ^ s')
        as H1 by (apply Z.mul_le_mono_nonneg_r; lia).
      assert (Zpos mx * 2 ^ s' * 2 ^ s < Zpos my' * 2 ^ n1' * 2 ^ prec * 2 ^ s)
        as H2 by (apply Z.mul_lt_mono_pos_r; lia).
      assert (Zpos my' * (2 ^ n1' * 2 ^ prec * 2 ^ s)
              <= Zpos my * 2 ^ dl * (2 ^ n1' * 2 ^ prec * 2 ^ s))
        as H3 by (apply Z.mul_le_mono_nonneg_r; nia).
      assert (Zpos my * (2 ^ dl * 2 ^ n1' * 2 ^ prec * 2 ^ s)
              <= Zpos my * (2 ^ (prec - 1) * 2 ^ n1 * 2 ^ s'))
        as H4 by (apply Z.mul_le_mono_nonneg_l; lia).
      lia. }
    destruct (Z.eq_dec e1 e1') as [Heq|Hne]; [right|left; lia].
    split; [assumption|]. apply rneZ_mono; try assumption.
    assert (s' + n1 = s + n1' + dl) as Hexp by (unfold e1, e1', dl in *; lia).
    assert (2 ^ (s' + n1) = 2 ^ (s + n1' + dl)) as Hpow by (rewrite Hexp; reflexivity).
    rewrite !Z.pow_add_r in Hpow by lia.
    unfold N, D, N', D'.
    assert (Zpos my' * (Zpos mx * 2 ^ s * 2 ^ n1')
            <= Zpos my * 2 ^ dl * (Zpos mx * 2 ^ s * 2 ^ n1'))
      as H3 by (apply Z.mul_le_mono_nonneg_r; nia).
    assert (Zpos mx * Zpos my * (2 ^ s' * 2 ^ n1) =
            Zpos mx * Zpos my * (2 ^ s * 2 ^ n1' * 2 ^ dl)) as H5
      by (rewrite Hpow; reflexivity).
    lia.
Qed.

(** On canonical operands [SFleb] is the order of the values. *)
Lemma SFleb_valid_finite (m m' : positive) (e e' : Z) :
  valid_binary prec emax (S754_finite false m e) = true ->
  valid_binary prec emax (S754_finite false m' e') = true ->
  SFleb (S754_finite false m' e') (S754_finite false m e) = true ->
  e' <= e /\ Zpos m' <= Zpos m * 2 ^ (e - e').
Proof.
  unfold valid_binary, bounded, canonical_mantissa. intros Hv Hv' Hle.
  apply andb_true_iff in Hv as [Hc _]. apply andb_true_iff in Hv' as [Hc' _].
  apply Z.eqb_eq in Hc, Hc'.
  pose proof (digits2_pos_bounds m) as [Hlo Hhi].
  pose proof (digits2_pos_bounds m') as [Hlo' Hhi'].
  unfold SFleb, SFcompare in Hle.
  destruct (Z.compare_spec e' e) as [Heq|Hlt|Hgt]; try discriminate.
  - subst e'. split; [lia|]. rewrite Z.sub_diag, Z.pow_0_r, Z.mul_1_r.
    rewrite Pos.compare_cont_spec in Hle.
    destruct (Pos.compare_spec m' m) as [E|E|E]; try discriminate; lia.
  - split; [lia|].
    assert (Zpos (digits2_pos m) = prec) as Hd by (unfold SpecFloat.fexp in *; lia).
    assert (Zpos (digits2_pos m') <= prec) as Hd' by (unfold SpecFloat.fexp in *; lia).
    rewrite Hd in Hlo.
    assert (2 ^ Zpos (digits2_pos m') <= 2 ^ prec) by (apply Z.pow_le_mono_r; lia).
    assert (2 ^ 1 <= 2 ^ (e - e')) as Hp by (apply Z.pow_le_mono_r; lia).
    rewrite Z.pow_1_r in Hp.
    assert (2 ^ prec = 2 ^ (prec - 1) * 2) as Hpp.
    { replace prec with (prec - 1 + 1) at 1 by lia.
      rewrite Z.pow_add_r, Z.pow_1_r by lia. reflexivity. }
    nia.
Qed.
(** A product of two positive finite operands is a zero, a positive finite
    number or plus infinity. *)
Lemma SFmul_finite_class (mx my : positive) (ex ey : Z) :
  match SFmul prec emax (S754_finite false mx ex) (S754_finite false my ey) with
  | S754_zero s | S754_infinity s | S754_finite s _ _ => s = false
  | S754_nan => False
  end.
Proof.
  unfold SFmul. simpl xorb.
  set (N := Zpos (mx * my)).
  replace (binary_round_aux prec emax false N (ex + ey) loc_Exact)
    with (binary_round_aux prec emax false (N / 1) (ex + ey) (loc_frac N 1)).
  - rewrite binary_round_aux_frac by lia. cbv zeta.
    apply finalize_not_nan.
    set (n1 := Z.max _ 0).
    assert (0 < 1 * 2 ^ n1) as HD.
    { assert (0 < 2 ^ n1) by (apply Z.pow_pos_nonneg; lia). lia. }
    pose proof (rneZ_bounds N (1 * 2 ^ n1) HD) as [Hlo _].
    pose proof (Z.div_pos N (1 * 2 ^ n1) ltac:(lia) HD). lia.
  - unfold loc_frac. rewrite Z.div_1_r, Z.mod_1_r. reflexivity.
Qed.
End Format.

(** ** Signs *)

Lemma binary_round_aux_sign prec emax s m e l :
  sign_is s (binary_round_aux prec emax s m e l).
Proof.
  unfold binary_round_aux.
  destruct (shr_fexp prec emax m e l) as [mrs' e'].
  destruct (shr_fexp prec emax _ e' loc_Exact) as [mrs'' e''].
  destruct (shr_m mrs''); simpl; auto.
  destruct (e'' <=? emax - prec); simpl; auto.
Qed.

Lemma binary_round_sign prec emax s m e : sign_is s (binary_round prec emax s m e).
Proof.
  unfold binary_round.
  destruct (shl_align _ _ _) as [mz ez]. apply binary_round_aux_sign.
Qed.

Lemma sign_is_true_not_positive s x :
  sign_is s x -> s = true -> is_positive_finite x = false.
Proof. destruct x as [| | |[] ? ?]; simpl; congruence. Qed.

Lemma F32_mul_positive (b f : float32) :
  is_positive_finite b = true -> is_positive_finite f = true ->
  sign_is false (F32.mul b f).
Proof.
  destruct b as [| | |[] mb eb]; try discriminate.
  destruct f as [| | |[] mf ef]; try discriminate.
  intros _ _. apply (binary_round_aux_sign F32.prec F32.emax false).
Qed.

Lemma F32_div_by_zero (x d : float32) :
  is_zero d = true -> is_positive_finite (F32.div x d) = false.
Proof. destruct d; try discriminate. destruct x; reflexivity. Qed.

Lemma F32_div_by_negative (x d : float32) :
  sign_is false x -> is_negative d = true -> is_positive_finite (F32.div x d) = false.
Proof.
  destruct d as [| [] | | [] md ed]; try discriminate; intros Hx _;
    destruct x as [sx|sx| |sx mx ex]; simpl in Hx; subst; try reflexivity.
  unfold F32.div, SFdiv.
  destruct (SFdiv_core_binary _ _ _ _ _ _) as [[mz ez] lz].
  eapply sign_is_true_not_positive; [apply binary_round_aux_sign | reflexivity].
Qed.

Lemma non_finite_not_positive (x : spec_float) :
  is_non_finite x = true -> is_positive_finite x = false.
Proof. destruct x as [| | |[] ? ?]; simpl; congruence. Qed.

Lemma F64_of_float_not_positive (x : float32) :
  is_positive_finite x = false -> is_positive_finite (F64.of_float x) = false.
Proof.
  destruct x as [| | |[] m e]; try discriminate; try reflexivity. intros _.
  eapply sign_is_true_not_positive; [apply binary_round_sign | reflexivity].
Qed.

Lemma F64_mul_1000_not_positive (y : float64) :
  is_positive_finite y = false ->
  is_positive_finite (F64.mul kMetersToMillimeters y) = false.
Proof.
  destruct y as [| | |[] m e]; try discriminate; try reflexivity. intros _.
  unfold F64.mul, kMetersToMillimeters, SFmul.
  eapply sign_is_true_not_positive; [apply binary_round_aux_sign | reflexivity].
Qed.

Lemma static_cast_int32_not_positive `{Platform} (y : float64) :
  is_positive_finite y = false ->
  static_cast_int32 y <= 0 \/ static_cast_int32 y = cvt_indefinite.
Proof.
  intros Hy. unfold static_cast_int32.
  destruct y as [| | |[] m e]; try discriminate; simpl; auto.
  - left. reflexivity.
  - destruct (in_int32 _); auto. left.
    pose proof (Z.shiftl_nonneg (Zpos m) e). lia.
Qed.

(** ** One pixel *)

Lemma Mat_eq (a b : Mat) :
  type a = type b -> rows a = rows b -> cols a = cols b -> data a = data b -> a = b.
Proof. destruct a, b. simpl. congruence. Qed.

Lemma static_cast_int16_id (z : Z) : in_int16 z = true -> static_cast_int16 z = z.
Proof.
  unfold in_int16, INT16_MIN, INT16_MAX, static_cast_int16. intros Hz.
  apply andb_true_iff in Hz as [Hlo Hhi]. apply Z.leb_le in Hlo, Hhi.
  rewrite Z.mod_small; lia.
Qed.

Section Pixel.
Context `{Platform}.

Lemma static_cast_int32_int32 (x : float64) : in_int32 (static_cast_int32 x) = true.
Proof.
  unfold static_cast_int32.
  destruct (Ztrunc x) as [t|]; [|apply cvt_indefinite_int32].
  destruct (in_int32 t) eqn:E; [assumption | apply cvt_indefinite_int32].
Qed.

Lemma static_cast_int32_trunc (x : float64) (t : Z) :
  Ztrunc x = Some t -> in_int32 t = true -> static_cast_int32 x = t.
Proof. unfold static_cast_int32. intros -> ->. reflexivity. Qed.


Lemma min_depth_500 : min_depth = 500.
Proof. reflexivity. Qed.

(** The range check, with its mixed [int32_t]/[double] comparison, on
    integers. *)
Lemma clip_spec (depth_mm : Z) :
  in_int32 depth_mm = true ->
  clip depth_mm =
    if (15000 <? depth_mm) || (depth_mm <? 500) then INT16_MAX else depth_mm.
Proof.
  intros Hz. unfold clip. rewrite SFgtb_F64_of_Z, min_depth_500 by assumption.
  reflexivity.
Qed.

Lemma clip_range (depth_mm : Z) :
  in_int32 depth_mm = true ->
  500 <= clip depth_mm <= 15000 \/ clip depth_mm = INT16_MAX.
Proof.
  intros Hz. rewrite clip_spec by assumption.
  destruct (15000 <? depth_mm) eqn:E1; [auto|].
  destruct (depth_mm <? 500) eqn:E2; [auto|].
  apply Z.ltb_ge in E1, E2. simpl. lia.
Qed.

Lemma pixel_spec {T} `{DisparityElem T} (disp : T) (calibration : StereoCalibration) :
  pixel disp calibration =
    let depth_mm := depth_mm_of disp calibration in
    if (15000 <? depth_mm) || (depth_mm <? 500) then INT16_MAX else depth_mm.
Proof.
  unfold pixel.
  assert (in_int32 (depth_mm_of disp calibration) = true) as Hin
    by apply static_cast_int32_int32.
  pose proof (clip_range _ Hin) as Hr.
  rewrite static_cast_int16_id.
  - apply clip_spec, Hin.
  - unfold in_int16, INT16_MIN, INT16_MAX in *.
    apply andb_true_iff. split; apply Z.leb_le; lia.
Qed.

Lemma pixel_range {T} `{DisparityElem T} (disp : T) (calibration : StereoCalibration) :
  500 <= pixel disp calibration <= 15000 \/ pixel disp calibration = INT16_MAX.
Proof.
  rewrite pixel_spec. simpl.
  destruct (15000 <? _) eqn:E1; [auto|].
  destruct (_ <? 500) eqn:E2; [auto|].
  apply Z.ltb_ge in E1, E2. simpl. lia.
Qed.

(** ** [DepthFromDisparityMap] as a whole *)

Lemma DepthFromDisparityMap_map {T} `{DisparityElem T} (disparity : Mat_ T)
    (calibration : StereoCalibration) (out_depth : Mat) :
  size_ disparity = size out_depth ->
  length (data_ disparity) = (rows_ disparity * cols_ disparity)%nat ->
  length (data out_depth) = (rows out_depth * cols out_depth)%nat ->
  DepthFromDisparityMap disparity calibration out_depth =
    (Returned,
     {| type := type out_depth; rows := rows out_depth; cols := cols out_depth;
        data := (fun disp => Sc_int (pixel disp calibration)) <$> data_ disparity |}).
Proof.
  intros Hsz Hld Hlo. unfold DepthFromDisparityMap.
  rewrite bool_decide_eq_true_2 by assumption. simpl. f_equal.
  unfold size_, size in Hsz. injection Hsz as Hr Hc.
  set (g := fun i j : nat => pixel (Mat__at disparity i j) calibration).
  change (for_loop _ _ out_depth)
    with (fill_rows g (rows_ disparity) (cols_ disparity) out_depth).
  destruct (fill_rows_header g (rows_ disparity) (cols_ disparity) out_depth)
    as (Ht & Hr' & Hc' & _).
  apply Mat_eq; simpl; try assumption.
  rewrite fill_rows_data by congruence.
  apply list_eq. intros k. rewrite !list_lookup_fmap.
  destruct (decide (k < rows_ disparity * cols_ disparity)%nat) as [Hk|Hk].
  - rewrite lookup_seq_lt by assumption. simpl.
    destruct (lookup_lt_is_Some_2 (data_ disparity) k ltac:(lia)) as [x Hx].
    rewrite Hx. simpl. do 2 f_equal. unfold g, Mat__at.
    assert (0 < cols_ disparity)%nat by nia.
    pose proof (Nat.div_mod_eq k (cols_ disparity)).
    replace (k / cols_ disparity * cols_ disparity + k mod cols_ disparity)%nat
      with k by lia.
    rewrite Hx. reflexivity.
  - rewrite lookup_seq_ge by lia.
    rewrite (lookup_ge_None_2 (data_ disparity)) by lia. reflexivity.
Qed.

(** ** [DepthFromStereo] in conversion mode, on a supported type *)

Lemma Mat_wf_length (m : Mat) :
  Mat_wf m = true -> length (data m) = (rows m * cols m)%nat.
Proof.
  unfold Mat_wf. intros Hwf.
  apply andb_true_iff in Hwf as [Hwf _]. apply andb_true_iff in Hwf as [Hwf _].
  apply Nat.eqb_eq in Hwf. exact Hwf.
Qed.

Lemma DepthFromStereo_convert (self : DepthProvider) (left right : Mat)
    (calibration : StereoCalibration) (out_depth out_disparity : Mat) :
  input_is_depth_ self = false ->
  DisparityMapFromStereo self left right Mat_empty = (Returned, out_disparity) ->
  Mat_wf out_disparity = true ->
  supported (type out_disparity) = true ->
  DepthFromStereo self left right calibration out_depth =
    (Returned,
     {| type := CV_16SC1; rows := rows out_disparity; cols := cols out_disparity;
        data := (fun s => Sc_int (pixel (disparity_px (type out_disparity) s) calibration))
                  <$> data out_disparity |}).
Proof.
  intros Hmode Hest Hwf Hsup. unfold DepthFromStereo. rewrite Hmode, Hest.
  pose proof (Mat_wf_length _ Hwf) as Hlen.
  unfold supported in Hsup. unfold disparity_px.
  destruct (type out_disparity =? CV_32FC1) eqn:E32.
  - rewrite DepthFromDisparityMap_map; simpl;
      rewrite ?length_fmap, ?length_replicate; try reflexivity; try assumption.
    rewrite <- list_fmap_compose. reflexivity.
  - simpl in Hsup. rewrite Hsup.
    rewrite DepthFromDisparityMap_map; simpl;
      rewrite ?length_fmap, ?length_replicate; try reflexivity; try assumption.
    rewrite <- list_fmap_compose. reflexivity.
Qed.
End Pixel.

(** ** The stated properties *)

Section Properties.
Context `{Platform}.



(** C3. In conversion mode every element of the returned buffer is a
    millimeter depth in [500, 15000] or the sentinel [INT16_MAX]. *)
Theorem C3_output_range (self : DepthProvider) (left right : Mat)
    (calibration : StereoCalibration) (out_depth out_disparity out : Mat) :
  input_is_depth_ self = false ->
  DisparityMapFromStereo self left right Mat_empty = (Returned, out_disparity) ->
  Mat_wf out_disparity = true ->
  DepthFromStereo self left right calibration out_depth = (Returned, out) ->
  Forall (fun s => exists v, s = Sc_int v /\ (500 <= v <= 15000 \/ v = INT16_MAX))
         (data out).
Proof.
  intros Hmode Hest Hwf Hrun.
  destruct (supported (type out_disparity)) eqn:Hsup.
  - rewrite (DepthFromStereo_convert _ _ _ _ _ _ Hmode Hest Hwf Hsup) in Hrun.
    injection Hrun as <-. simpl.
    apply Forall_fmap, Forall_forall. intros s _. simpl.
    eexists. split; [reflexivity|]. apply pixel_range.
  - unfold DepthFromStereo in Hrun. rewrite Hmode, Hest in Hrun.
    unfold supported in Hsup. apply orb_false_iff in Hsup as [E1 E2].
    rewrite E1, E2 in Hrun. discriminate.
Qed.

(** C4, as the code has it. A pixel whose computed depth is exactly
    15000 mm keeps it, as does one at 14999 mm; the sentinel replaces every
    computed depth from 15001 mm on. *)
Theorem C4_upper_bound_inclusive (self : DepthProvider) (left right : Mat)
    (calibration : StereoCalibration) (out_depth out_disparity : Mat)
    (i j : nat) (s : Scalar) :
  input_is_depth_ self = false ->
  DisparityMapFromStereo self left right Mat_empty = (Returned, out_disparity) ->
  Mat_wf out_disparity = true ->
  supported (type out_disparity) = true ->
  (j < cols out_disparity)%nat ->
  data out_disparity !! (i * cols out_disparity + j)%nat = Some s ->
  let depth_mm := depth_mm_of (disparity_px (type out_disparity) s) calibration in
  let out := snd (DepthFromStereo self left right calibration out_depth) in
  (depth_mm = 15000 -> Mat_at out i j = Some 15000)
  /\ (depth_mm = 14999 -> Mat_at out i j = Some 14999)
  /\ (15001 <= depth_mm -> Mat_at out i j = Some INT16_MAX).
Proof.
  intros Hmode Hest Hwf Hsup Hj Hs depth_mm out. subst out.
  rewrite (DepthFromStereo_convert _ _ _ _ _ _ Hmode Hest Hwf Hsup).
  unfold Mat_at. simpl. rewrite list_lookup_fmap, Hs. simpl.
  rewrite pixel_spec. simpl. fold depth_mm.
  split; [|split]; try (intros ->; reflexivity).
  intros Hfar. destruct (Z.ltb_spec 15000 depth_mm); [reflexivity | lia].
Qed.

(** C6, as the code has it. In conversion mode an estimator output of any
    type other than [CV_32FC1] and [CV_16SC1] makes [DepthFromStereo] throw
    an error whose message contains the name of that type. The throw comes
    after [out_depth] has been replaced by a fresh buffer of the estimator's
    size, every element the constant passed to [cv::Mat1s], and before any
    pixel is converted: the buffer does not depend on the calibration or on
    the disparities. For the two supported types the call returns. *)
Theorem C6_unsupported_type (self : DepthProvider) (left right : Mat)
    (calibration : StereoCalibration) (out_depth out_disparity : Mat) :
  input_is_depth_ self = false ->
  DisparityMapFromStereo self left right Mat_empty = (Returned, out_disparity) ->
  (supported (type out_disparity) = false ->
     DepthFromStereo self left right calibration out_depth =
       (Thrown (unknown_type_message (type out_disparity)),
        Mat1s (size out_disparity) CV_16SC1)
     /\ exists before after : string,
          unknown_type_message (type out_disparity) =
            (before ++ Type2Str (type out_disparity) ++ after)%string)
  /\ (supported (type out_disparity) = true ->
        fst (DepthFromStereo self left right calibration out_depth) = Returned).
Proof.
  intros Hmode Hest. unfold DepthFromStereo. rewrite Hmode, Hest. split.
  - intros Hsup. unfold supported in Hsup.
    apply orb_false_iff in Hsup as [-> ->]. split; [reflexivity|].
    eexists _, _. reflexivity.
  - intros Hsup. unfold supported in Hsup.
    unfold DepthFromDisparityMap.
    destruct (type out_disparity =? CV_32FC1).
    + rewrite bool_decide_eq_true_2 by reflexivity. reflexivity.
    + simpl in Hsup. rewrite Hsup.
      rewrite bool_decide_eq_true_2 by reflexivity. reflexivity.
Qed.

(** C7. In depth-passthrough mode [DepthFromStereo] ends as the estimator
    does and leaves in [out_depth] what the estimator wrote: the calibration
    is not used, nothing is converted, scaled or clipped, and the element
    type is not looked at. *)
Theorem C7_passthrough (self : DepthProvider) (left right : Mat)
    (calibration : StereoCalibration) (out_depth : Mat) :
  input_is_depth_ self = true ->
  DepthFromStereo self left right calibration out_depth =
    DisparityMapFromStereo self left right out_depth.
Proof. intros Hmode. unfold DepthFromStereo. rewrite Hmode. reflexivity. Qed.

End Properties.

(** C10. The constructor of [StereoCalibration] is total and stores its two
    arguments as given, whatever they are, and [DepthFromDisparity] computes
    with them without a check: a negative baseline gives a negative depth, a
    zero focal length the depth zero, a NaN baseline a NaN. *)
Theorem C10_calibration_unchecked (baseline focal disparity : float32) :
  baseline_meters (StereoCalibration_new baseline focal) = baseline
  /\ focal_length_px (StereoCalibration_new baseline focal) = focal
  /\ DepthFromDisparity disparity (StereoCalibration_new baseline focal) =
       F32.div (F32.mul baseline focal) disparity
  /\ DepthFromDisparity (F32.of_Z 2) (StereoCalibration_new (F32.of_Z (-1)) (F32.of_Z 4))
       = F32.of_Z (-2)
  /\ DepthFromDisparity (F32.of_Z 2) (StereoCalibration_new (F32.of_Z 1) (S754_zero false))
       = S754_zero false
  /\ DepthFromDisparity (F32.of_Z 2) (StereoCalibration_new S754_nan (S754_infinity true))
       = S754_nan.
Proof. repeat split. Qed.

Lemma F32_prec_pos : 0 < F32.prec.
Proof. reflexivity. Qed.

(** C1, as the code has it. For a calibration with positive finite baseline
    and focal length, [DepthFromDisparity] returns the single-precision
    quotient of the single-precision product [baseline * focal] by the
    disparity, each operation rounded to nearest, and it does not increase
    when the disparity does: for positive finite disparities [d1 <= d2] the
    depth at [d2] is at most the depth at [d1]. *)
Theorem C1_depth_non_increasing (calibration : StereoCalibration) (d1 d2 : float32) :
  positive_calibration calibration = true ->
  is_positive_finite d1 = true -> F32.valid d1 = true ->
  is_positive_finite d2 = true -> F32.valid d2 = true ->
  SFleb d1 d2 = true ->
  DepthFromDisparity d1 calibration =
    F32.div (F32.mul (baseline_meters calibration) (focal_length_px calibration)) d1
  /\ DepthFromDisparity d2 calibration =
       F32.div (F32.mul (baseline_meters calibration) (focal_length_px calibration)) d2
  /\ SFleb (DepthFromDisparity d2 calibration) (DepthFromDisparity d1 calibration) = true.
Proof.
  intros Hcal Hd1 Hv1 Hd2 Hv2 Hle. split; [reflexivity|]. split; [reflexivity|].
  unfold DepthFromDisparity. destruct calibration as [b f].
  unfold positive_calibration in Hcal. simpl in *.
  apply andb_true_iff in Hcal as [Hb Hf].
  destruct b as [| | |[] mb eb]; try discriminate.
  destruct f as [| | |[] mf ef]; try discriminate.
  destruct d1 as [| | |[] m1 e1]; try discriminate.
  destruct d2 as [| | |[] m2 e2]; try discriminate.
  pose proof (SFmul_finite_class F32.prec F32.emax F32_prec_pos mb mf eb ef) as Hx.
  unfold F32.mul, F32.div.
  destruct (SFmul F32.prec F32.emax _ _) as [sx|sx| |sx mx ex];
    try contradiction; subst sx; try reflexivity.
  destruct (SFleb_valid_finite F32.prec F32.emax F32_prec_pos m2 m1 e2 e1 Hv2 Hv1 Hle)
    as [He Hm].
  apply (SFdiv_antitone F32.prec F32.emax F32_prec_pos); assumption.
Qed.

Section InvalidPixels.
Context `{Platform}.

(** A depth that is not a positive finite number gives a millimeter value
    that is not positive, or the value of an out-of-range conversion. *)
Lemma depth_mm_of_not_positive (d : float32) (calibration : StereoCalibration) :
  is_positive_finite (DepthFromDisparity d calibration) = false ->
  depth_mm_of d calibration <= 0 \/ depth_mm_of d calibration = cvt_indefinite.
Proof.
  intros Hd. unfold depth_mm_of. simpl to_float.
  apply static_cast_int32_not_positive, F64_mul_1000_not_positive,
    F64_of_float_not_positive, Hd.
Qed.

Lemma invalid_depth_not_positive (d : float32) (calibration : StereoCalibration) :
  is_zero d = true
  \/ (is_negative d = true /\ positive_calibration calibration = true)
  \/ is_non_finite (DepthFromDisparity d calibration) = true ->
  is_positive_finite (DepthFromDisparity d calibration) = false.
Proof.
  intros [Hz|[[Hn Hc]|Hnf]].
  - apply F32_div_by_zero, Hz.
  - apply F32_div_by_negative; [|exact Hn].
    unfold positive_calibration in Hc. apply andb_true_iff in Hc as [Hb Hf].
    apply F32_mul_positive; assumption.
  - apply non_finite_not_positive, Hnf.
Qed.

(** C8, as the code has it. In conversion mode the call returns and the
    value stored at a pixel is a function of the disparity of that pixel
    alone. It is [INT16_MAX] when that disparity, as [DepthFromDisparity]
    receives it, is zero, or is negative under a calibration with positive
    finite parameters, or when the depth is infinite or a NaN, on a target
    whose out-of-range conversion gives a value outside [500, 15000]; and it
    is [INT16_MAX] whenever the truncated millimeter depth is below 500 or
    above 15000. *)
Theorem C8_invalid_pixels (self : DepthProvider) (left right : Mat)
    (calibration : StereoCalibration) (out_depth out_disparity : Mat) :
  input_is_depth_ self = false ->
  DisparityMapFromStereo self left right Mat_empty = (Returned, out_disparity) ->
  Mat_wf out_disparity = true ->
  supported (type out_disparity) = true ->
  ~ (500 <= cvt_indefinite <= 15000) ->
  exists out,
    DepthFromStereo self left right calibration out_depth = (Returned, out)
    /\ forall (i j : nat) (s : Scalar),
         (j < cols out_disparity)%nat ->
         data out_disparity !! (i * cols out_disparity + j)%nat = Some s ->
         let d := disparity_px (type out_disparity) s in
         Mat_at out i j = Some (pixel d calibration)
         /\ (is_zero d = true
             \/ (is_negative d = true /\ positive_calibration calibration = true)
             \/ is_non_finite (DepthFromDisparity d calibration) = true
             \/ depth_mm_of d calibration < 500
             \/ 15000 < depth_mm_of d calibration ->
             Mat_at out i j = Some INT16_MAX).
Proof.
  intros Hmode Hest Hwf Hsup Hcvt. eexists. split.
  - apply DepthFromStereo_convert; eassumption.
  - intros i j s Hj Hs d.
    assert (Mat_at
              {| type := CV_16SC1; rows := rows out_disparity;
                 cols := cols out_disparity;
                 data := (fun s => Sc_int (pixel (disparity_px (type out_disparity) s)
                                                 calibration)) <$> data out_disparity |}
              i j = Some (pixel d calibration)) as Hout.
    { unfold Mat_at. simpl. rewrite list_lookup_fmap, Hs. reflexivity. }
    split; [exact Hout|]. intros Hbad. rewrite Hout. f_equal.
    rewrite pixel_spec. cbv zeta.
    assert (depth_mm_of d calibration < 500 \/ 15000 < depth_mm_of d calibration) as Hr.
    { destruct Hbad as [Hz|[Hn|[Hnf|Hr]]]; [| | |exact Hr].
      all: destruct (depth_mm_of_not_positive d calibration
                       (invalid_depth_not_positive d calibration ltac:(auto)))
        as [Hle|Heq]; lia. }
    destruct Hr as [Hlo|Hhi].
    + apply Z.ltb_lt in Hlo. rewrite Hlo, orb_true_r. reflexivity.
    + apply Z.ltb_lt in Hhi. rewrite Hhi. reflexivity.
Qed.
End InvalidPixels.


Section NegativeStored.
Context `{Platform}.


End NegativeStored.




Lemma C1_depth_non_increasing_witness :
  positive_calibration kitti = true
  /\ is_positive_finite (F32.of_Z 50) = true /\ F32.valid (F32.of_Z 50) = true
  /\ is_positive_finite (F32.of_Z 51) = true /\ F32.valid (F32.of_Z 51) = true
  /\ SFleb (F32.of_Z 50) (F32.of_Z 51) = true
  /\ SFleb (DepthFromDisparity (F32.of_Z 51) kitti)
           (DepthFromDisparity (F32.of_Z 50) kitti) = true.
Proof.
  refine (conj eq_refl (conj eq_refl (conj eq_refl (conj eq_refl (conj eq_refl
            (conj eq_refl _)))))).
  exact (proj2 (proj2 (C1_depth_non_increasing kitti (F32.of_Z 50) (F32.of_Z 51)
                         eq_refl eq_refl eq_refl eq_refl eq_refl eq_refl))).
Defined.

(** C1 as stated fails twice. The depth is not strictly decreasing: the two
    largest single-precision disparities below 2 px give the same depth under
    a baseline of 1 m and a focal length of 2 px. And the depth is not the
    exact quotient: for [1 * 1 / 3] it is [11184811 * 2 ^ -25], and three
    times that is not 1. *)
Lemma C1_counterexample :
  let c := StereoCalibration_new (F32.of_Z 1) (F32.of_Z 2) in
  let d1 := S754_finite false 16777214 (-23) in
  let d2 := S754_finite false 16777215 (-23) in
  (positive_calibration c = true
   /\ is_positive_finite d1 = true /\ F32.valid d1 = true
   /\ is_positive_finite d2 = true /\ F32.valid d2 = true
   /\ SFltb d1 d2 = true
   /\ DepthFromDisparity d2 c = DepthFromDisparity d1 c
   /\ SFltb (DepthFromDisparity d2 c) (DepthFromDisparity d1 c) = false)
  /\ DepthFromDisparity (F32.of_Z 3) (StereoCalibration_new (F32.of_Z 1) (F32.of_Z 1))
       = S754_finite false 11184811 (-25)
  /\ 3 * 11184811 <> 2 ^ 25.
Proof. repeat split. discriminate. Qed.


Lemma C3_output_range_witness :
  input_is_depth_ (fixed_estimator false two_pixels) = false
  /\ DisparityMapFromStereo (fixed_estimator false two_pixels) image image Mat_empty
       = (Returned, two_pixels)
  /\ Mat_wf two_pixels = true
  /\ @DepthFromStereo x86_64_opencv (fixed_estimator false two_pixels) image image
       half_meter Mat_empty = (Returned, Mat_16SC1 1 2 [500; INT16_MAX])
  /\ Forall (fun s => exists v, s = Sc_int v /\ (500 <= v <= 15000 \/ v = INT16_MAX))
            (data (Mat_16SC1 1 2 [500; INT16_MAX])).
Proof.
  refine (conj eq_refl (conj eq_refl (conj eq_refl (conj eq_refl _)))).
  exact (@C3_output_range x86_64_opencv (fixed_estimator false two_pixels)
           image image half_meter Mat_empty two_pixels
           (Mat_16SC1 1 2 [500; INT16_MAX]) eq_refl eq_refl eq_refl eq_refl).
Defined.

Lemma C4_upper_bound_inclusive_witness :
  input_is_depth_ (fixed_estimator false one_pixel) = false
  /\ DisparityMapFromStereo (fixed_estimator false one_pixel) image_1x1 image_1x1 Mat_empty
       = (Returned, one_pixel)
  /\ Mat_wf one_pixel = true
  /\ supported (type one_pixel) = true
  /\ (0 < cols one_pixel)%nat
  /\ data one_pixel !! (0 * cols one_pixel + 0)%nat = Some (Sc_float (F32.of_Z 1))
  /\ let depth_mm :=
       @depth_mm_of x86_64_opencv _ _
         (@disparity_px x86_64_opencv (type one_pixel) (Sc_float (F32.of_Z 1)))
         fifteen_meters in
     let out :=
       snd (@DepthFromStereo x86_64_opencv (fixed_estimator false one_pixel)
              image_1x1 image_1x1 fifteen_meters Mat_empty) in
     (depth_mm = 15000 -> Mat_at out 0 0 = Some 15000)
     /\ (depth_mm = 14999 -> Mat_at out 0 0 = Some 14999)
     /\ (15001 <= depth_mm -> Mat_at out 0 0 = Some INT16_MAX).
Proof.
  refine (conj eq_refl (conj eq_refl (conj eq_refl (conj eq_refl
            (conj (le_n 1) (conj eq_refl _)))))).
  exact (@C4_upper_bound_inclusive x86_64_opencv (fixed_estimator false one_pixel)
           image_1x1 image_1x1 fifteen_meters Mat_empty one_pixel 0%nat 0%nat
           (Sc_float (F32.of_Z 1)) eq_refl eq_refl eq_refl eq_refl (le_n 1) eq_refl).
Defined.

(** C4 as stated fails: the pixel below has a computed depth of exactly
    15000 mm and keeps it. *)
Lemma C4_counterexample :
  @depth_mm_of x86_64_opencv _ _ (F32.of_Z 1) fifteen_meters = 15000
  /\ @DepthFromStereo x86_64_opencv (fixed_estimator false one_pixel)
       image_1x1 image_1x1 fifteen_meters Mat_empty
     = (Returned, Mat_16SC1 1 1 [15000])
  /\ Mat_at (Mat_16SC1 1 1 [15000]) 0 0 <> Some INT16_MAX.
Proof. repeat split. discriminate. Qed.

(** C5 is not what the code does. The [CV_16SC1] branch instantiates
    [DepthFromDisparityMap<uint16_t>]: whatever the library does with the
    stored bits, [DepthFromDisparity] never receives a negative disparity.
    A stored -1 arrives as 0 when the library saturates and as 65535 when the
    bits are read as they are, and under a baseline of 1 m and a focal length
    of 65535 px the latter is stored as a depth of 1000 mm, where the
    disparity -1 would give the sentinel. *)
Theorem C5_signed_disparity_read_unsigned :
  (forall (P : Platform) (z : Z),
     is_negative (@disparity_px P CV_16SC1 (Sc_int z)) = false)
  /\ is_negative (F32.of_Z (-1)) = true
  /\ @disparity_px x86_64_opencv CV_16SC1 (Sc_int (-1)) = F32.of_Z 0
  /\ @disparity_px x86_64_raw_bits CV_16SC1 (Sc_int (-1)) = F32.of_Z 65535
  /\ (let c := StereoCalibration_new (F32.of_Z 1) (F32.of_Z 65535) in
      @DepthFromStereo x86_64_raw_bits (fixed_estimator false (Mat_16SC1 1 1 [-1]))
        image_1x1 image_1x1 c Mat_empty = (Returned, Mat_16SC1 1 1 [1000])
      /\ @DepthFromStereo x86_64_opencv (fixed_estimator false (Mat_16SC1 1 1 [-1]))
           image_1x1 image_1x1 c Mat_empty = (Returned, Mat_16SC1 1 1 [INT16_MAX])
      /\ @pixel x86_64_raw_bits float32 _ (F32.of_Z (-1)) c = INT16_MAX).
Proof.
  split; [|repeat split].
  intros P z. unfold disparity_px. simpl.
  pose proof (ushort_of_short_uint16 z) as Hu.
  unfold in_uint16 in Hu. apply andb_true_iff in Hu as [Hlo _]. apply Z.leb_le in Hlo.
  unfold F32.of_Z, binary_normalize.
  destruct (ushort_of_short z) as [|p|p]; try lia; [reflexivity|].
  pose proof (binary_round_sign F32.prec F32.emax false p 0) as Hs.
  destruct (binary_round F32.prec F32.emax false p 0) as [| [] | | [] ? ?];
    simpl in Hs; try discriminate; reflexivity.
Qed.

Lemma C6_unsupported_type_witness :
  input_is_depth_ (fixed_estimator false bytes_1x1) = false
  /\ DisparityMapFromStereo (fixed_estimator false bytes_1x1) image_1x1 image_1x1 Mat_empty
       = (Returned, bytes_1x1)
  /\ (supported (type bytes_1x1) = false ->
        @DepthFromStereo x86_64_opencv (fixed_estimator false bytes_1x1)
          image_1x1 image_1x1 kitti Mat_empty =
          (Thrown (@unknown_type_message x86_64_opencv (type bytes_1x1)),
           Mat1s (size bytes_1x1) CV_16SC1)
        /\ exists before after : string,
             @unknown_type_message x86_64_opencv (type bytes_1x1) =
               (before ++ @Type2Str x86_64_opencv (type bytes_1x1) ++ after)%string)
  /\ (supported (type bytes_1x1) = true ->
        fst (@DepthFromStereo x86_64_opencv (fixed_estimator false bytes_1x1)
               image_1x1 image_1x1 kitti Mat_empty) = Returned).
Proof.
  refine (conj eq_refl (conj eq_refl _)).
  exact (@C6_unsupported_type x86_64_opencv (fixed_estimator false bytes_1x1)
           image_1x1 image_1x1 kitti Mat_empty bytes_1x1 eq_refl eq_refl).
Defined.

(** C6 as stated fails: when the error is thrown the output buffer has
    already been written. Here the caller's buffer held a depth of 1234 mm;
    after the throw it holds the constant 3, the value of [CV_16SC1] that the
    code passes to [cv::Mat1s]. *)
Lemma C6_counterexample :
  let prior := Mat_16SC1 1 1 [1234] in
  supported (type bytes_1x1) = false
  /\ @DepthFromStereo x86_64_opencv (fixed_estimator false bytes_1x1)
       image_1x1 image_1x1 kitti prior =
       (Thrown "Unknown data type for disparity matrix [8UC1]. Supported are CV_32FC1 and CV_16UC1.",
        Mat_16SC1 1 1 [3])
  /\ Mat_16SC1 1 1 [3] <> prior.
Proof. repeat split. discriminate. Qed.

Lemma C7_passthrough_witness :
  input_is_depth_ (fixed_estimator true bytes_1x1) = true
  /\ @DepthFromStereo x86_64_opencv (fixed_estimator true bytes_1x1)
       image_1x1 image_1x1 kitti Mat_empty =
     DisparityMapFromStereo (fixed_estimator true bytes_1x1) image_1x1 image_1x1 Mat_empty.
Proof.
  refine (conj eq_refl _).
  exact (@C7_passthrough x86_64_opencv (fixed_estimator true bytes_1x1)
           image_1x1 image_1x1 kitti Mat_empty eq_refl).
Defined.

Lemma x86_64_indefinite_out_of_range :
  ~ (500 <= @cvt_indefinite x86_64_opencv <= 15000).
Proof. intros [Hlo _]. exact (Hlo eq_refl). Defined.

Lemma C8_invalid_pixels_witness :
  input_is_depth_ (fixed_estimator false two_pixels) = false
  /\ DisparityMapFromStereo (fixed_estimator false two_pixels) image image Mat_empty
       = (Returned, two_pixels)
  /\ Mat_wf two_pixels = true
  /\ supported (type two_pixels) = true
  /\ ~ (500 <= @cvt_indefinite x86_64_opencv <= 15000)
  /\ exists out,
       @DepthFromStereo x86_64_opencv (fixed_estimator false two_pixels) image image
         half_meter Mat_empty = (Returned, out)
       /\ forall (i j : nat) (s : Scalar),
            (j < cols two_pixels)%nat ->
            data two_pixels !! (i * cols two_pixels + j)%nat = Some s ->
            let d := @disparity_px x86_64_opencv (type two_pixels) s in
            Mat_at out i j = Some (@pixel x86_64_opencv float32 _ d half_meter)
            /\ (is_zero d = true
                \/ (is_negative d = true /\ positive_calibration half_meter = true)
                \/ is_non_finite (DepthFromDisparity d half_meter) = true
                \/ @depth_mm_of x86_64_opencv float32 _ d half_meter < 500
                \/ 15000 < @depth_mm_of x86_64_opencv float32 _ d half_meter ->
                Mat_at out i j = Some INT16_MAX).
Proof.
  refine (conj eq_refl (conj eq_refl (conj eq_refl (conj eq_refl
            (conj x86_64_indefinite_out_of_range _))))).
  exact (@C8_invalid_pixels x86_64_opencv (fixed_estimator false two_pixels)
           image image half_meter Mat_empty two_pixels
           eq_refl eq_refl eq_refl eq_refl x86_64_indefinite_out_of_range).
Defined.

(** C8 as stated fails. A depth of 15.0005 m is outside the range of 0.5 m
    to 15 m, yet its millimeter value truncates to 15000 and is kept. And a
    negative disparity is kept when the calibration is negative too: baseline
    -0.5 m, focal length 700 px and disparity -700/6 px give 3000 mm. *)
Lemma C8_counterexample :
  (let c := StereoCalibration_new (F32.of_ratio 150005 10000) (F32.of_Z 1) in
   SFltb (F32.of_Z 15) (DepthFromDisparity (F32.of_Z 1) c) = true
   /\ @DepthFromStereo x86_64_opencv (fixed_estimator false one_pixel)
        image_1x1 image_1x1 c Mat_empty = (Returned, Mat_16SC1 1 1 [15000])
   /\ Mat_at (Mat_16SC1 1 1 [15000]) 0 0 <> Some INT16_MAX)
  /\ (let c := StereoCalibration_new (F32.of_ratio (-1) 2) (F32.of_Z 700) in
      let d := F32.of_ratio (-700) 6 in
      is_negative d = true
      /\ @DepthFromStereo x86_64_opencv (fixed_estimator false (Mat_32FC1 1 1 [d]))
           image_1x1 image_1x1 c Mat_empty = (Returned, Mat_16SC1 1 1 [3000])
      /\ Mat_at (Mat_16SC1 1 1 [3000]) 0 0 <> Some INT16_MAX).
Proof. repeat split; discriminate. Qed.


(** ** The scenarios of the design document *)

(** Uniform disparity of 50 px under the KITTI rig: 7776 mm everywhere. *)
Example end_to_end_uniform_disparity :
  @DepthFromStereo x86_64_opencv
    (fixed_estimator false (Mat_32FC1 1 2 [F32.of_Z 50; F32.of_Z 50]))
    image image kitti Mat_empty
  = (Returned, Mat_16SC1 1 2 [7776; 7776]).
Proof. reflexivity. Qed.

(** Baseline 0.5 m, focal length 700 px, disparity 700/6 px: 3000 mm. *)
Example round_trip_three_meters :
  @DepthFromStereo x86_64_opencv
    (fixed_estimator false (Mat_32FC1 1 1 [F32.of_ratio 700 6]))
    image_1x1 image_1x1
    (StereoCalibration_new (F32.of_ratio 1 2) (F32.of_Z 700)) Mat_empty
  = (Returned, Mat_16SC1 1 1 [3000]).
Proof. reflexivity. Qed.

(** The same field through both supported element types. *)
Example both_element_types :
  @DepthFromStereo x86_64_opencv
    (fixed_estimator false (Mat_16SC1 2 2 [50; 0; -3; 1000]))
    image image kitti Mat_empty
  = (Returned, Mat_16SC1 2 2 [7776; INT16_MAX; INT16_MAX; INT16_MAX])
  /\ @DepthFromStereo x86_64_opencv
       (fixed_estimator false
          (Mat_32FC1 2 2 [F32.of_Z 50; F32.of_Z 0; F32.of_Z (-3); F32.of_Z 1000]))
       image image kitti Mat_empty
     = (Returned, Mat_16SC1 2 2 [7776; INT16_MAX; INT16_MAX; INT16_MAX]).
Proof. split; reflexivity. Qed.

(** * Further properties of the code *)

Section MapProperties.
Context `{Platform}.

(** X1. [DepthFromDisparityMap], called on its own on buffers that hold
    [rows * cols] elements: when the sizes differ the assertion fails and
    [out_depth] is not touched; when they agree the call returns, the header
    of [out_depth] is kept, and every cell is overwritten by the value of the
    disparity at the same place, so nothing of the previous content is left. *)
Theorem X1_DepthFromDisparityMap_overwrites {T} `{DisparityElem T}
    (disparity : Mat_ T) (calibration : StereoCalibration) (out_depth : Mat) :
  length (data_ disparity) = (rows_ disparity * cols_ disparity)%nat ->
  length (data out_depth) = (rows out_depth * cols out_depth)%nat ->
  (size_ disparity <> size out_depth ->
     DepthFromDisparityMap disparity calibration out_depth
       = (AssertionFailed, out_depth))
  /\ (size_ disparity = size out_depth ->
        DepthFromDisparityMap disparity calibration out_depth =
          (Returned,
           {| type := type out_depth; rows := rows out_depth; cols := cols out_depth;
              data := (fun disp => Sc_int (pixel disp calibration))
                        <$> data_ disparity |})
        /\ forall previous : Mat,
             type previous = type out_depth -> size previous = size out_depth ->
             length (data previous) = length (data out_depth) ->
             DepthFromDisparityMap disparity calibration previous =
               DepthFromDisparityMap disparity calibration out_depth).
Proof.
  intros Hld Hlo. split.
  - intros Hne. unfold DepthFromDisparityMap.
    rewrite bool_decide_eq_false_2 by assumption. reflexivity.
  - intros Hsz. split.
    + apply DepthFromDisparityMap_map; assumption.
    + intros previous Ht Hs Hl.
      unfold size in Hs. injection Hs as Hr Hc.
      rewrite (DepthFromDisparityMap_map disparity calibration out_depth)
        by assumption.
      rewrite (DepthFromDisparityMap_map disparity calibration previous).
      * rewrite Ht, Hr, Hc. reflexivity.
      * rewrite Hsz. unfold size. congruence.
      * assumption.
      * congruence.
Qed.

(** X2. The rows are converted independently of each other: converting a
    disparity field made of two blocks of rows into a buffer made of two
    blocks of the same heights gives the two blocks converted separately, one
    on top of the other. *)
Theorem X2_DepthFromDisparityMap_by_blocks {T} `{DisparityElem T}
    (upper lower : Mat_ T) (calibration : StereoCalibration)
    (out_upper out_lower : Mat) :
  length (data_ upper) = (rows_ upper * cols_ upper)%nat ->
  length (data_ lower) = (rows_ lower * cols_ lower)%nat ->
  length (data out_upper) = (rows out_upper * cols out_upper)%nat ->
  length (data out_lower) = (rows out_lower * cols out_lower)%nat ->
  size_ upper = size out_upper -> size_ lower = size out_lower ->
  cols_ upper = cols_ lower ->
  DepthFromDisparityMap (Mat__vconcat upper lower) calibration
                        (Mat_vconcat out_upper out_lower) =
    (Returned,
     Mat_vconcat (snd (DepthFromDisparityMap upper calibration out_upper))
                 (snd (DepthFromDisparityMap lower calibration out_lower))).
Proof.
  intros Hlu Hll Hlou Hlol Hsu Hsl Hc.
  pose proof Hsu as Hsu'. pose proof Hsl as Hsl'.
  unfold size_, size in Hsu', Hsl'.
  injection Hsu' as Hru Hcu. injection Hsl' as Hrl Hcl.
  rewrite (DepthFromDisparityMap_map upper calibration out_upper) by assumption.
  rewrite (DepthFromDisparityMap_map lower calibration out_lower) by assumption.
  rewrite (DepthFromDisparityMap_map (Mat__vconcat upper lower)).
  - unfold Mat_vconcat. simpl. rewrite fmap_app. reflexivity.
  - unfold size_, size. simpl. congruence.
  - simpl. rewrite length_app, Hlu, Hll. nia.
  - simpl. rewrite length_app, Hlou, Hlol. nia.
Qed.

(** X3. In conversion mode, whenever the estimator returns a matrix that
    holds [rows * cols] elements of its type, [out_depth] is a proper 16-bit
    signed matrix when [DepthFromStereo] ends: its type is [CV_16SC1], it
    holds [rows * cols] elements and every one of them fits [int16_t]. This
    holds on the error path as well. *)
Theorem X3_conversion_output_well_formed (self : DepthProvider) (left right : Mat)
    (calibration : StereoCalibration) (out_depth out_disparity : Mat) :
  input_is_depth_ self = false ->
  DisparityMapFromStereo self left right Mat_empty = (Returned, out_disparity) ->
  Mat_wf out_disparity = true ->
  let result := DepthFromStereo self left right calibration out_depth in
  type (snd result) = CV_16SC1 /\ Mat_wf (snd result) = true.
Proof.
  intros Hmode Hest Hwf.
  assert (forall l : list Scalar,
            (forall s, s ∈ l -> is_short s = true) -> forallb is_short l = true) as Hall.
  { intros l Hl. apply forallb_forall. intros s Hs. apply Hl, list_elem_of_In, Hs. }
  destruct (supported (type out_disparity)) eqn:Hsup.
  - cbv zeta.
    rewrite (DepthFromStereo_convert _ _ _ _ _ _ Hmode Hest Hwf Hsup). simpl.
    split; [reflexivity|]. unfold Mat_wf. simpl.
    rewrite length_fmap, (Mat_wf_length _ Hwf), Nat.eqb_refl. simpl.
    apply Hall. intros s Hs.
    apply list_elem_of_fmap in Hs as (s0 & -> & _). simpl.
    destruct (pixel_range (disparity_px (type out_disparity) s0) calibration) as [Hr|Hr];
      unfold in_int16, INT16_MIN, INT16_MAX in *;
      apply andb_true_iff; split; apply Z.leb_le; lia.
  - cbv zeta. unfold DepthFromStereo. rewrite Hmode, Hest.
    unfold supported in Hsup. apply orb_false_iff in Hsup as [-> ->]. simpl.
    split; [reflexivity|]. unfold Mat_wf. simpl.
    rewrite length_replicate, Nat.eqb_refl. simpl.
    apply Hall. intros s Hs.
    apply elem_of_replicate in Hs as [-> _]. reflexivity.
Qed.

(** X4. The sentinel can be told from a depth. The value stored for a pixel
    is [INT16_MAX] exactly when the millimeter depth is below 500 or above
    15000; any other stored value is the millimeter depth itself, unchanged
    by the narrowing to [int16_t], and lies in [500, 15000]. *)
Theorem X4_sentinel_decodes {T} `{DisparityElem T} (disp : T)
    (calibration : StereoCalibration) :
  (pixel disp calibration = INT16_MAX <->
     depth_mm_of disp calibration < 500 \/ 15000 < depth_mm_of disp calibration)
  /\ (pixel disp calibration <> INT16_MAX ->
        pixel disp calibration = depth_mm_of disp calibration
        /\ 500 <= depth_mm_of disp calibration <= 15000).
Proof.
  rewrite pixel_spec. cbv zeta.
  set (t := depth_mm_of disp calibration).
  unfold INT16_MAX.
  destruct (Z.ltb_spec 15000 t); destruct (Z.ltb_spec t 500); simpl;
    split; try split; try lia; intros; try lia.
Qed.

End MapProperties.

Lemma binary_round_aux_opp (prec emax : Z) (s : bool) (m e : Z) (l : location) :
  binary_round_aux prec emax (negb s) m e l =
    SFopp (binary_round_aux prec emax s m e l).
Proof.
  unfold binary_round_aux.
  destruct (shr_fexp prec emax m e l) as [mrs' e'].
  destruct (shr_fexp prec emax _ e' loc_Exact) as [mrs'' e''].
  destruct (shr_m mrs''); try reflexivity.
  destruct (e'' <=? emax - prec); reflexivity.
Qed.

(** X6. A disparity of zero is not trapped: the division gives an infinity
    or a NaN, never a finite depth, and the conversion to [int32_t] that
    follows is one whose operand has no integer part, so the millimeter value
    is the one the target gives in that case. *)
Theorem X6_zero_disparity_not_finite `{Platform} (d : float32)
    (calibration : StereoCalibration) :
  is_zero d = true ->
  is_non_finite (DepthFromDisparity d calibration) = true
  /\ depth_mm_of d calibration = cvt_indefinite.
Proof.
  intros Hz.
  assert (is_non_finite (DepthFromDisparity d calibration) = true) as Hnf.
  { unfold DepthFromDisparity, F32.div.
    destruct d; try discriminate.
    destruct (F32.mul _ _); reflexivity. }
  split; [exact Hnf|].
  unfold depth_mm_of. simpl to_float.
  destruct (DepthFromDisparity d calibration) as [| [] | |]; try discriminate;
    reflexivity.
Qed.

(** X7. With a positive finite baseline, focal length and disparity the
    depth is never negative and never a NaN: it is a positive finite number,
    or plus zero when the quotient underflows, or plus infinity when the
    product or the quotient overflows. *)
Theorem X7_positive_inputs_positive_depth (d : float32)
    (calibration : StereoCalibration) :
  positive_calibration calibration = true ->
  is_positive_finite d = true ->
  DepthFromDisparity d calibration = S754_zero false
  \/ DepthFromDisparity d calibration = S754_infinity false
  \/ is_positive_finite (DepthFromDisparity d calibration) = true.
Proof.
  intros Hcal Hd. unfold DepthFromDisparity. destruct calibration as [b f].
  unfold positive_calibration in Hcal. simpl in *.
  apply andb_true_iff in Hcal as [Hb Hf].
  destruct b as [| | |[] mb eb]; try discriminate.
  destruct f as [| | |[] mf ef]; try discriminate.
  destruct d as [| | |[] md ed]; try discriminate.
  pose proof (SFmul_finite_class F32.prec F32.emax F32_prec_pos mb mf eb ef) as Hx.
  unfold F32.mul, F32.div.
  destruct (SFmul F32.prec F32.emax _ _) as [sx|sx| |sx mx ex];
    try contradiction; subst sx; auto.
  destruct (SFdiv_finite F32.prec F32.emax F32_prec_pos false false mx md ex ed)
    as (s & n1 & Hs & Hn1 & -> & _ & _ & _).
  simpl xorb.
  set (N := Zpos mx * 2 ^ s). set (D := Zpos md * 2 ^ n1).
  assert (0 < D) as HD.
  { assert (0 < 2 ^ n1) by (apply Z.pow_pos_nonneg; lia). unfold D. nia. }
  assert (0 <= N) as HN.
  { assert (0 < 2 ^ s) by (apply Z.pow_pos_nonneg; lia). unfold N. nia. }
  pose proof (rneZ_bounds N D HD) as [Hlo _].
  pose proof (Z.div_pos N D HN HD) as Hq.
  pose proof (finalize_not_nan F32.prec F32.emax false
                (ex - ed - s + n1) (rneZ N D) ltac:(lia)) as Hfin.
  destruct (finalize F32.prec F32.emax false _ _) as [sr|sr| |sr mr er];
    try contradiction; subst sr; auto.
Qed.

(** X8. Changing the sign of the disparity changes the sign of the depth and
    nothing else: the rounding does not depend on the sign. *)
Theorem X8_depth_odd_in_disparity (d : float32) (calibration : StereoCalibration) :
  DepthFromDisparity (SFopp d) calibration = SFopp (DepthFromDisparity d calibration).
Proof.
  unfold DepthFromDisparity, F32.div.
  destruct (F32.mul _ _) as [sx|sx| |sx mx ex]; destruct d as [sy|sy| |sy my ey];
    simpl; try reflexivity;
    try (destruct sx, sy; reflexivity).
  destruct (SFdiv_core_binary _ _ _ _ _ _) as [[mz ez] lz].
  replace (xorb sx (negb sy)) with (negb (xorb sx sy)) by (destruct sx, sy; reflexivity).
  apply binary_round_aux_opp.
Qed.

Lemma Zdigits2_mul_pow2 (p : positive) (k : Z) :
  0 <= k -> Zdigits2 (Zpos p * 2 ^ k) = Zpos (digits2_pos p) + k.
Proof.
  intros Hk. pose proof (digits2_pos_bounds p) as [Hlo Hhi].
  set (d := Zpos (digits2_pos p)) in *.
  assert (0 < 2 ^ k) as Hpow by (apply Z.pow_pos_nonneg; lia).
  assert (2 ^ (d + k) = 2 ^ d * 2 ^ k) as E1 by (apply Z.pow_add_r; lia).
  assert (2 ^ (d - 1 + k) = 2 ^ (d - 1) * 2 ^ k) as E2 by (apply Z.pow_add_r; lia).
  apply Z.le_antisymm.
  - apply Zdigits2_le; try lia. rewrite E1. apply Z.mul_lt_mono_pos_r; lia.
  - replace (d + k) with (d - 1 + k + 1) by lia.
    apply Zdigits2_ge; [lia|]. rewrite E2. apply Z.mul_le_mono_nonneg_r; lia.
Qed.

Lemma F32_of_Z_small (p : positive) :
  Zpos p < 2 ^ 24 ->
  let k := 24 - Zpos (digits2_pos p) in
  0 <= k
  /\ F32.of_Z (Zpos p) = S754_finite false (Z.to_pos (Zpos p * 2 ^ k)) (- k)
  /\ Zpos (Z.to_pos (Zpos p * 2 ^ k)) = Zpos p * 2 ^ k
  /\ F32.valid (F32.of_Z (Zpos p)) = true.
Proof.
  intros Hp k.
  pose proof (digits2_pos_bounds p) as [Hdlo Hdhi].
  assert (Zpos (digits2_pos p) <= 24) as Hd.
  { destruct (Z_le_gt_dec (Zpos (digits2_pos p)) 24) as [|Hgt]; [assumption|exfalso].
    assert (2 ^ 24 <= 2 ^ (Zpos (digits2_pos p) - 1)) by (apply Z.pow_le_mono_r; lia).
    lia. }
  assert (0 <= k) as Hk by (unfold k; lia).
  assert (0 < 2 ^ k) as Hpow by (apply Z.pow_pos_nonneg; lia).
  assert (0 < Zpos p * 2 ^ k) as Hprod by (apply Z.mul_pos_pos; lia).
  assert (F32.of_Z (Zpos p) = S754_finite false (Z.to_pos (Zpos p * 2 ^ k)) (- k)) as Heq.
  { unfold F32.of_Z, binary_normalize.
    rewrite binary_round_exact; unfold F32.prec, F32.emax, emin; try lia.
    f_equal. unfold k. lia. }
  split; [exact Hk|]. split; [exact Heq|]. split; [apply Z2Pos.id; exact Hprod|].
  rewrite Heq.
  unfold F32.valid, valid_binary, bounded, canonical_mantissa, F32.prec, F32.emax.
  apply andb_true_iff. split; [|apply Z.leb_le; lia].
  apply Z.eqb_eq.
  pose proof (Zdigits2_mul_pow2 p k Hk) as Hdig.
  destruct (Zpos p * 2 ^ k) as [|q|q] eqn:E; try lia.
  simpl in Hdig. simpl Z.to_pos. rewrite Hdig. unfold fexp, emin, k. lia.
Qed.

(** X9. The [uint16_t] read in the 16-bit branch is converted to the [float]
    parameter of [DepthFromDisparity] without rounding: 0 becomes +0, and
    [u > 0] becomes the valid [float] of mantissa [m] and exponent [- k] with
    [m = u * 2 ^ k], whose value is [u] itself. The integer part of the
    [float] is [u], and two different values never give the same [float].
    What a 16-bit field loses is lost before this step, where a negative
    stored value is read as [uint16_t]. *)
Theorem X9_uint16_to_float_exact (u : Z) :
  in_uint16 u = true ->
  (u = 0 -> @to_float Z _ u = S754_zero false)
  /\ (0 < u ->
        exists (m : positive) (k : Z),
          @to_float Z _ u = S754_finite false m (- k)
          /\ 0 <= k /\ Zpos m = u * 2 ^ k)
  /\ F32.valid (@to_float Z _ u) = true
  /\ Ztrunc (@to_float Z _ u) = Some u
  /\ (forall v : Z, in_uint16 v = true ->
        @to_float Z _ v = @to_float Z _ u -> v = u).
Proof.
  assert (forall w, in_uint16 w = true ->
            (0 < w ->
               exists (m : positive) (k : Z),
                 F32.of_Z w = S754_finite false m (- k) /\ 0 <= k /\ Zpos m = w * 2 ^ k)
            /\ F32.valid (F32.of_Z w) = true
            /\ Ztrunc (F32.of_Z w) = Some w) as Hall.
  { intros w Hw. unfold in_uint16, UINT16_MAX in Hw.
    apply andb_true_iff in Hw as [Hlo Hhi]. apply Z.leb_le in Hlo, Hhi.
    destruct w as [|p|p]; try lia; [repeat split; lia|].
    destruct (F32_of_Z_small p ltac:(lia)) as (Hk & Heq & Hm & Hv).
    split; [intros _; eexists _, _; split; [exact Heq|split; [exact Hk|exact Hm]]|].
    split; [exact Hv|].
    rewrite Heq. unfold Ztrunc, cond_Zopp. f_equal. rewrite Hm.
    rewrite Z.shiftl_opp_r, Z.shiftr_div_pow2 by lia.
    apply Z.div_mul. apply Z.pow_nonzero; lia. }
  change (@to_float Z _) with F32.of_Z.
  intros Hu. destruct (Hall u Hu) as (Hpos & Hv & Ht).
  split; [intros ->; reflexivity|]. split; [exact Hpos|].
  split; [exact Hv|]. split; [exact Ht|].
  intros v Hvr Heq. destruct (Hall v Hvr) as (_ & _ & Htv).
  rewrite Heq, Ht in Htv. congruence.
Qed.

Lemma F64_of_float_exact (s : bool) (m : positive) (e : Z) :
  F32.valid (S754_finite s m e) = true ->
  let k := 53 - Zpos (digits2_pos m) in
  0 <= k
  /\ F64.of_float (S754_finite s m e) = S754_finite s (Z.to_pos (Zpos m * 2 ^ k)) (e - k)
  /\ F64.valid (F64.of_float (S754_finite s m e)) = true
  /\ Ztrunc (F64.of_float (S754_finite s m e)) = Ztrunc (S754_finite s m e).
Proof.
  intros Hv k.
  unfold F32.valid, valid_binary, bounded, canonical_mantissa, F32.prec, F32.emax in Hv.
  apply andb_true_iff in Hv as [Hc Hb].
  apply Z.eqb_eq in Hc. apply Z.leb_le in Hb.
  set (d := Zpos (digits2_pos m)) in *.
  assert (1 <= d) as Hd1 by (unfold d; lia).
  assert (d <= 24 /\ -149 <= e) as [Hd He] by (unfold fexp, emin in Hc; lia).
  assert (0 <= k) as Hk by (unfold k; lia).
  assert (0 < 2 ^ k) as Hpow by (apply Z.pow_pos_nonneg; lia).
  assert (0 < Zpos m * 2 ^ k) as Hprod by (apply Z.mul_pos_pos; lia).
  assert (F64.of_float (S754_finite s m e)
          = S754_finite s (Z.to_pos (Zpos m * 2 ^ k)) (e - k)) as Heq.
  { unfold F64.of_float.
    rewrite binary_round_exact; unfold F64.prec, F64.emax, emin; fold d; try lia.
    f_equal. unfold k. lia. }
  split; [exact Hk|]. split; [exact Heq|]. rewrite Heq. split.
  - unfold F64.valid, valid_binary, bounded, canonical_mantissa, F64.prec, F64.emax.
    apply andb_true_iff. split; [|apply Z.leb_le; lia].
    apply Z.eqb_eq.
    pose proof (Zdigits2_mul_pow2 m k Hk) as Hdig. fold d in Hdig.
    destruct (Zpos m * 2 ^ k) as [|q|q] eqn:E; try lia.
    simpl in Hdig. simpl Z.to_pos. rewrite Hdig. unfold fexp, emin, k. lia.
  - unfold Ztrunc. do 2 f_equal.
    rewrite Z2Pos.id by assumption.
    rewrite <- Z.shiftl_mul_pow2 by lia.
    rewrite Z.shiftl_shiftl by lia. f_equal. lia.
Qed.

(** X10. The promotion of the depth from [float] to [double], made for the
    product with [kMetersToMillimeters], is exact: a valid finite [float]
    [m * 2 ^ e] becomes the valid [double] whose mantissa is [m] shifted left
    by [k] places and whose exponent is [e - k], and the integer part is the
    same. *)
Theorem X10_float_to_double_exact (s : bool) (m : positive) (e : Z) :
  F32.valid (S754_finite s m e) = true ->
  let k := 53 - Zpos (digits2_pos m) in
  0 <= k
  /\ F64.of_float (S754_finite s m e) = S754_finite s (Z.to_pos (Zpos m * 2 ^ k)) (e - k)
  /\ F64.valid (F64.of_float (S754_finite s m e)) = true
  /\ Ztrunc (F64.of_float (S754_finite s m e)) = Ztrunc (S754_finite s m e).
Proof. exact (F64_of_float_exact s m e). Qed.

Lemma rneZ_exact (D q : Z) : 0 < D -> rneZ (D * q) D = q.
Proof.
  intros HD. unfold rneZ, loc_frac.
  rewrite (Z.mul_comm D q), Z.div_mul, Z.mod_mul by lia. reflexivity.
Qed.

Lemma SFdiv_exact (prec emax : Z) (sx sy : bool) (mx my mq : positive) (ex ey eq : Z) :
  0 < prec ->
  valid_binary prec emax (S754_finite (xorb sx sy) mq eq) = true ->
  Zpos mx * 2 ^ (ex - Z.min ex (eq + ey)) =
    Zpos mq * Zpos my * 2 ^ (eq + ey - Z.min ex (eq + ey)) ->
  SFdiv prec emax (S754_finite sx mx ex) (S754_finite sy my ey) =
    S754_finite (xorb sx sy) mq eq.
Proof.
  intros Hprec Hv Hex.
  unfold valid_binary, bounded, canonical_mantissa in Hv.
  apply andb_true_iff in Hv as [Hc Hb]. apply Z.eqb_eq in Hc. apply Z.leb_le in Hb.
  pose proof (digits2_pos_bounds mq) as [Hqlo Hqhi].
  set (dq := Zpos (digits2_pos mq)) in *.
  assert (1 <= dq) as Hdq1 by (unfold dq; lia).
  assert (dq <= prec /\ emin prec emax <= eq) as [Hdq Heq] by (unfold fexp in Hc; lia).
  assert (emin prec emax < eq -> dq = prec) as Hnorm by (unfold fexp in Hc; lia).
  assert (Zpos mq < 2 ^ prec) as Hqp.
  { assert (2 ^ dq <= 2 ^ prec) by (apply Z.pow_le_mono_r; lia). lia. }
  destruct (SFdiv_finite prec emax Hprec sx sy mx my ex ey)
    as (s & n1 & Hs & Hn1 & -> & He1 & Hhi & Hlo).
  set (c := Z.min ex (eq + ey)) in *.
  set (a := ex - c) in *. set (b := eq + ey - c) in *.
  assert (0 <= a) as Ha by (unfold a, c; lia).
  assert (0 <= b) as Hb' by (unfold b, c; lia).
  set (e1 := ex - ey - s + n1) in *.
  set (N := Zpos mx * 2 ^ s) in *. set (D := Zpos my * 2 ^ n1) in *.
  assert (0 < 2 ^ s) as Ps by (apply Z.pow_pos_nonneg; lia).
  assert (0 < 2 ^ n1) as Pn1 by (apply Z.pow_pos_nonneg; lia).
  assert (0 < 2 ^ a) as Pa by (apply Z.pow_pos_nonneg; lia).
  assert (0 < 2 ^ b) as Pb by (apply Z.pow_pos_nonneg; lia).
  assert (0 < D) as HD by (unfold D; nia).
  (* the equation, with the scalings of the division *)
  assert (N * 2 ^ a = Zpos mq * Zpos my * 2 ^ (b + s)) as HN.
  { unfold N. rewrite Z.pow_add_r by lia.
    replace (Zpos mx * 2 ^ s * 2 ^ a) with (Zpos mx * 2 ^ a * 2 ^ s) by ring.
    rewrite Hex. ring. }
  assert (D * Zpos mq * 2 ^ a = Zpos mq * Zpos my * 2 ^ (a + n1)) as HDq.
  { unfold D. rewrite Z.pow_add_r by lia. ring. }
  assert (e1 = eq) as He.
  { destruct (Z.lt_trichotomy e1 eq) as [Hlt|[Heq'|Hgt]]; [exfalso|assumption|exfalso].
    - (* the quotient would need more than [prec] digits *)
      assert (exists k, 1 <= k /\ b + s = a + n1 + k) as (k & Hk & Hbs)
        by (exists (eq - e1); unfold e1, a, b in *; lia).
      rewrite Hbs, Z.pow_add_r in HN by lia.
      assert (N = D * Zpos mq * 2 ^ k) as HNk.
      { apply (Z.mul_reg_r _ _ (2 ^ a)); [lia|].
        rewrite HN. replace (D * Zpos mq * 2 ^ k * 2 ^ a)
          with (D * Zpos mq * 2 ^ a * 2 ^ k) by ring.
        rewrite HDq. ring. }
      assert (2 ^ 1 <= 2 ^ k) as Hk2 by (apply Z.pow_le_mono_r; lia).
      rewrite Z.pow_1_r in Hk2.
      specialize (Hnorm ltac:(lia)). rewrite Hnorm in Hqlo.
      assert (2 ^ prec = 2 ^ (prec - 1) * 2) as Hpp.
      { replace prec with (prec - 1 + 1) at 1 by lia.
        rewrite Z.pow_add_r, Z.pow_1_r by lia. reflexivity. }
      assert (D * 2 ^ prec <= D * (Zpos mq * 2 ^ k)).
      { apply Z.mul_le_mono_nonneg_l; [lia|]. rewrite Hpp.
        apply Z.mul_le_mono_nonneg; lia. }
      rewrite HNk in Hhi. lia.
    - (* the quotient would be below its binade *)
      assert (exists k, 1 <= k /\ a + n1 = b + s + k) as (k & Hk & Hbs)
        by (exists (e1 - eq); unfold e1, a, b in *; lia).
      rewrite Hbs, Z.pow_add_r in HDq by lia.
      assert (D * Zpos mq = N * 2 ^ k) as HNk.
      { apply (Z.mul_reg_r _ _ (2 ^ a)); [lia|].
        rewrite HDq. replace (N * 2 ^ k * 2 ^ a) with (N * 2 ^ a * 2 ^ k) by ring.
        rewrite HN. ring. }
      assert (2 ^ 1 <= 2 ^ k) as Hk2 by (apply Z.pow_le_mono_r; lia).
      rewrite Z.pow_1_r in Hk2.
      specialize (Hlo ltac:(lia)).
      assert (2 ^ prec = 2 ^ (prec - 1) * 2) as Hpp.
      { replace prec with (prec - 1 + 1) at 1 by lia.
        rewrite Z.pow_add_r, Z.pow_1_r by lia. reflexivity. }
      assert (0 < 2 ^ (prec - 1)) by (apply Z.pow_pos_nonneg; lia).
      assert (N * 2 <= N * 2 ^ k) by (apply Z.mul_le_mono_nonneg_l; unfold N; nia).
      assert (D * Zpos mq < D * 2 ^ prec) by (apply Z.mul_lt_mono_pos_l; lia).
      nia. }
  assert (N = D * Zpos mq) as HNexact.
  { apply (Z.mul_reg_r _ _ (2 ^ a)); [lia|].
    rewrite HN, HDq. do 2 f_equal. unfold e1, a, b in *. lia. }
  rewrite HNexact, rneZ_exact by assumption. rewrite He.
  rewrite finalize_spec by (try assumption; lia).
  replace (Zpos mq =? 0) with false by reflexivity.
  replace (Zpos mq <? 2 ^ prec) with true by (symmetry; apply Z.ltb_lt; assumption).
  replace (eq <=? emax - prec) with true by (symmetry; apply Z.leb_le; assumption).
  reflexivity.
Qed.

(** X11. When the quotient of the rounded product [baseline * focal], say
    [mx * 2 ^ ex], by the disparity [my * 2 ^ ey] is itself a valid
    single-precision number [mq * 2 ^ eq], that is when
    [mx * 2 ^ ex = mq * my * 2 ^ (eq + ey)], [DepthFromDisparity] returns
    exactly that number: the division adds no error of its own. *)
Theorem X11_exact_quotient_returned (calibration : StereoCalibration)
    (sx sy : bool) (mx my mq : positive) (ex ey eq : Z) :
  F32.mul (baseline_meters calibration) (focal_length_px calibration)
    = S754_finite sx mx ex ->
  F32.valid (S754_finite (xorb sx sy) mq eq) = true ->
  Zpos mx * 2 ^ (ex - Z.min ex (eq + ey)) =
    Zpos mq * Zpos my * 2 ^ (eq + ey - Z.min ex (eq + ey)) ->
  DepthFromDisparity (S754_finite sy my ey) calibration =
    S754_finite (xorb sx sy) mq eq.
Proof.
  intros Hprod Hv Hex. unfold DepthFromDisparity. rewrite Hprod.
  apply SFdiv_exact; [reflexivity | exact Hv | exact Hex].
Qed.

(** ** The order of the depths, down to the millimeters *)

Section RoundedResults.
Variables prec emax : Z.
Hypothesis prec_pos : 0 < prec.

Lemma pow2_half : 2 ^ prec = 2 ^ (prec - 1) * 2.
Proof.
  replace prec with (prec - 1 + 1) at 1 by lia.
  rewrite Z.pow_add_r, Z.pow_1_r by lia. reflexivity.
Qed.

(** What [finalize] returns is canonical. *)
Lemma finalize_valid (s : bool) (e1 m2 : Z) :
  emin prec emax <= e1 -> 0 <= m2 <= 2 ^ prec ->
  (emin prec emax < e1 -> 2 ^ (prec - 1) <= m2) ->
  valid_binary prec emax (finalize prec emax s e1 m2) = true.
Proof.
  intros He Hm Hnorm. rewrite finalize_spec by assumption.
  pose proof pow2_half as Hpp.
  assert (0 < 2 ^ (prec - 1)) as Hp1 by (apply Z.pow_pos_nonneg; lia).
  destruct (Z.eqb_spec m2 0) as [Hz|Hnz]; [reflexivity|].
  destruct (Z.ltb_spec m2 (2 ^ prec)) as [Hlt|Hge].
  - destruct (Z.leb_spec e1 (emax - prec)) as [Hb|Hb]; [|reflexivity].
    unfold valid_binary, bounded, canonical_mantissa.
    apply andb_true_iff. split; [|apply Z.leb_le; assumption].
    apply Z.eqb_eq.
    pose proof (Zdigits2_le m2 prec ltac:(lia) ltac:(lia) Hlt) as Hd.
    destruct (Zdigits2_pos_bounds m2 ltac:(lia)) as (Hd0 & _).
    assert (emin prec emax < e1 -> prec <= Zdigits2 m2) as Hd'.
    { intros Hgt. specialize (Hnorm Hgt).
      pose proof (Zdigits2_ge m2 (prec - 1) ltac:(lia) Hnorm). lia. }
    destruct m2 as [|q|q]; try lia. simpl Z.to_pos. simpl Zdigits2 in *.
    unfold fexp. lia.
  - destruct (Z.leb_spec (e1 + 1) (emax - prec)) as [Hb|Hb]; [|reflexivity].
    unfold valid_binary, bounded, canonical_mantissa.
    apply andb_true_iff. split; [|apply Z.leb_le; assumption].
    apply Z.eqb_eq.
    assert (Zdigits2 (2 ^ (prec - 1)) = prec) as Hd.
    { apply Z.le_antisymm.
      - apply Zdigits2_le; lia.
      - replace prec with (prec - 1 + 1) at 1 by lia. apply Zdigits2_ge; lia. }
    destruct (2 ^ (prec - 1)) as [|q|q]; try lia. simpl Z.to_pos. simpl Zdigits2 in Hd.
    rewrite Hd. unfold fexp. lia.
Qed.

Lemma rneZ_in_binade (N D : Z) :
  0 <= N -> 0 < D -> N < D * 2 ^ prec -> 0 <= rneZ N D <= 2 ^ prec.
Proof.
  intros HN HD Hlt.
  pose proof (rneZ_bounds N D HD) as [Hl Hu].
  pose proof (Z.div_pos N D HN HD).
  assert (N / D < 2 ^ prec) by (apply Z.div_lt_upper_bound; lia).
  lia.
Qed.

Lemma rneZ_normal (N D : Z) :
  0 < D -> 2 ^ (prec - 1) * D <= N -> 2 ^ (prec - 1) <= rneZ N D.
Proof.
  intros HD Hle.
  pose proof (rneZ_bounds N D HD) as [Hl _].
  assert (2 ^ (prec - 1) <= N / D) by (apply Z.div_le_lower_bound; lia).
  lia.
Qed.

(** A quotient of positive finite operands is a valid number that is a zero,
    positive and finite, or plus infinity. *)
Lemma SFdiv_valid_class (mx my : positive) (ex ey : Z) :
  let r := SFdiv prec emax (S754_finite false mx ex) (S754_finite false my ey) in
  valid_binary prec emax r = true
  /\ (r = S754_zero false \/ r = S754_infinity false \/ is_positive_finite r = true).
Proof.
  destruct (SFdiv_finite prec emax prec_pos false false mx my ex ey)
    as (s & n1 & Hs & Hn1 & Heq & He1 & Hhi & Hlo).
  cbv zeta. rewrite Heq. simpl xorb.
  set (N := Zpos mx * 2 ^ s) in *. set (D := Zpos my * 2 ^ n1) in *.
  assert (0 < D) as HD.
  { assert (0 < 2 ^ n1) by (apply Z.pow_pos_nonneg; lia). unfold D. nia. }
  assert (0 <= N) as HN.
  { assert (0 < 2 ^ s) by (apply Z.pow_pos_nonneg; lia). unfold N. nia. }
  pose proof (rneZ_in_binade N D HN HD ltac:(lia)) as Hb.
  split.
  - apply finalize_valid; try assumption.
    intros Hgt. apply rneZ_normal; [assumption|]. apply Hlo, Hgt.
  - pose proof (finalize_not_nan prec emax false (ex - ey - s + n1) (rneZ N D)
                  ltac:(lia)) as Hfin.
    destruct (finalize prec emax false _ _) as [sr|sr| |sr mr er];
      try contradiction; subst sr; auto.
Qed.

(** [SFmul] by a positive operand with a full mantissa: the scaled product
    that is rounded and the facts that place it in its binade. *)
Lemma SFmul_finite (sk sy : bool) (mk my : positive) (ek ey : Z) :
  prec <= Zpos (digits2_pos mk) ->
  exists n1 : Z,
    0 <= n1
    /\ SFmul prec emax (S754_finite sk mk ek) (S754_finite sy my ey) =
         finalize prec emax (xorb sk sy) (ek + ey + n1)
                  (rneZ (Zpos mk * Zpos my) (2 ^ n1))
    /\ emin prec emax <= ek + ey + n1
    /\ Zpos mk * Zpos my < 2 ^ n1 * 2 ^ prec
    /\ (emin prec emax < ek + ey + n1 -> 2 ^ (prec - 1) * 2 ^ n1 <= Zpos mk * Zpos my).
Proof.
  intros Hfull.
  set (N := Zpos mk * Zpos my). set (e := ek + ey).
  set (n1 := Z.max (fexp prec emax (Zdigits2 N + e) - e) 0).
  exists n1.
  assert (0 < N) as HN by (unfold N; lia).
  destruct (Zdigits2_pos_bounds N HN) as (Hd0 & Hdlo & Hdhi).
  assert (prec <= Zdigits2 N) as Hd.
  { pose proof (digits2_pos_bounds mk) as [Hklo _].
    assert (2 ^ (prec - 1) <= 2 ^ (Zpos (digits2_pos mk) - 1))
      by (apply Z.pow_le_mono_r; lia).
    pose proof (Zdigits2_ge N (prec - 1) ltac:(lia)) as Hge.
    assert (2 ^ (prec - 1) <= N) by (unfold N; nia).
    specialize (Hge ltac:(assumption)). lia. }
  assert (0 <= n1) as Hn1 by (unfold n1; lia).
  assert (n1 = fexp prec emax (Zdigits2 N + e) - e) as Hn1eq
    by (unfold n1, fexp; lia).
  split; [assumption|]. split.
  { unfold SFmul.
    change (Zpos (mk * my)) with N. fold e.
    replace (binary_round_aux prec emax (xorb sk sy) N e loc_Exact)
      with (binary_round_aux prec emax (xorb sk sy) (N / 1) e (loc_frac N 1)).
    - rewrite binary_round_aux_frac by lia. cbv zeta.
      rewrite Z.div_1_r. fold n1. rewrite Z.mul_1_l. reflexivity.
    - unfold loc_frac. rewrite Z.div_1_r, Z.mod_1_r. reflexivity. }
  fold N e. split; [|split].
  - rewrite Hn1eq. unfold fexp. lia.
  - rewrite <- Z.pow_add_r by lia.
    assert (2 ^ Zdigits2 N <= 2 ^ (n1 + prec))
      by (apply Z.pow_le_mono_r; unfold fexp in Hn1eq; lia).
    lia.
  - intros Hgt. rewrite <- Z.pow_add_r by lia.
    replace (prec - 1 + n1) with (Zdigits2 N - 1) by (unfold fexp in Hn1eq; lia).
    assumption.
Qed.
(** Multiplying by a positive operand with a full mantissa keeps the order,
    roundings included. The operands are compared by value. *)
Lemma SFmul_monotone (mk my my' : positive) (ek ey ey' : Z) :
  prec <= Zpos (digits2_pos mk) ->
  ey <= ey' -> Zpos my <= Zpos my' * 2 ^ (ey' - ey) ->
  SFleb (SFmul prec emax (S754_finite false mk ek) (S754_finite false my ey))
        (SFmul prec emax (S754_finite false mk ek) (S754_finite false my' ey')) = true.
Proof.
  intros Hfull Hey Hmy.
  destruct (SFmul_finite false false mk my ek ey Hfull)
    as (n1 & Hn1 & -> & He1 & Hhi & Hlo).
  destruct (SFmul_finite false false mk my' ek ey' Hfull)
    as (n1' & Hn1' & -> & He1' & Hhi' & Hlo').
  simpl xorb.
  set (dl := ey' - ey) in *.
  set (N := Zpos mk * Zpos my) in *. set (N' := Zpos mk * Zpos my') in *.
  assert (0 < 2 ^ n1) as Pn1 by (apply Z.pow_pos_nonneg; lia).
  assert (0 < 2 ^ n1') as Pn1' by (apply Z.pow_pos_nonneg; lia).
  assert (0 < 2 ^ dl) as Pdl by (apply Z.pow_pos_nonneg; lia).
  assert (0 < 2 ^ prec) as Pp by (apply Z.pow_pos_nonneg; lia).
  assert (0 < 2 ^ (prec - 1)) as Pp1 by (apply Z.pow_pos_nonneg; lia).
  assert (N <= N' * 2 ^ dl) as HNN.
  { unfold N, N'. rewrite <- Z.mul_assoc. apply Z.mul_le_mono_nonneg_l; lia. }
  apply (finalize_le prec emax prec_pos); try assumption.
  - apply rneZ_in_binade; unfold N; lia.
  - apply rneZ_in_binade; unfold N'; lia.
  - intros He. apply rneZ_normal; [lia|]. apply Hlo', He.
  - assert (ek + ey + n1 <= ek + ey' + n1') as Hcell.
    { destruct (Z_le_gt_dec (ek + ey + n1) (ek + ey' + n1')) as [|Hgt];
        [assumption|exfalso].
      specialize (Hlo ltac:(lia)).
      assert (n1' + prec + dl <= prec - 1 + n1) as Hexp by (unfold dl in *; lia).
      assert (2 ^ (n1' + prec + dl) <= 2 ^ (prec - 1 + n1)) as Hpow
        by (apply Z.pow_le_mono_r; lia).
      rewrite !Z.pow_add_r in Hpow by lia.
      assert (N' * 2 ^ dl < 2 ^ n1' * 2 ^ prec * 2 ^ dl)
        by (apply Z.mul_lt_mono_pos_r; lia).
      lia. }
    destruct (Z.eq_dec (ek + ey + n1) (ek + ey' + n1')) as [Heq|Hne]; [right|left; lia].
    split; [assumption|]. apply rneZ_mono; try lia.
    assert (n1 = n1' + dl) as -> by (unfold dl in *; lia).
    rewrite Z.pow_add_r by lia.
    assert (N * 2 ^ n1' <= N' * 2 ^ dl * 2 ^ n1')
      by (apply Z.mul_le_mono_nonneg_r; lia).
    lia.
Qed.

Lemma SFmul_valid_class (mk my : positive) (ek ey : Z) :
  prec <= Zpos (digits2_pos mk) ->
  let r := SFmul prec emax (S754_finite false mk ek) (S754_finite false my ey) in
  valid_binary prec emax r = true
  /\ (r = S754_zero false \/ r = S754_infinity false \/ is_positive_finite r = true).
Proof.
  intros Hfull.
  destruct (SFmul_finite false false mk my ek ey Hfull)
    as (n1 & Hn1 & Heq & He1 & Hhi & Hlo).
  cbv zeta. rewrite Heq. simpl xorb.
  set (N := Zpos mk * Zpos my) in *.
  assert (0 < 2 ^ n1) as Pn1 by (apply Z.pow_pos_nonneg; lia).
  pose proof (rneZ_in_binade N (2 ^ n1) ltac:(unfold N; lia) Pn1 Hhi) as Hb.
  split.
  - apply finalize_valid; try assumption.
    intros Hgt. apply rneZ_normal; [assumption|]. apply Hlo, Hgt.
  - pose proof (finalize_not_nan prec emax false (ek + ey + n1) (rneZ N (2 ^ n1))
                  ltac:(lia)) as Hfin.
    destruct (finalize prec emax false _ _) as [sr|sr| |sr mr er];
      try contradiction; subst sr; auto.
Qed.

(** The integer part does not decrease along the order of valid numbers. *)
Lemma Ztrunc_monotone (m m' : positive) (e e' : Z) :
  e <= e' -> Zpos m <= Zpos m' * 2 ^ (e' - e) ->
  Z.shiftl (Zpos m) e <= Z.shiftl (Zpos m') e'.
Proof.
  intros He Hm.
  replace e' with (e' - e + e) at 1 by lia.
  rewrite <- Z.shiftl_shiftl by lia.
  rewrite (Z.shiftl_mul_pow2 (Zpos m') (e' - e)) by lia.
  set (M := Zpos m' * 2 ^ (e' - e)) in *.
  destruct (Z_le_gt_dec 0 e) as [Hpos|Hneg].
  - rewrite !Z.shiftl_mul_pow2 by lia.
    apply Z.mul_le_mono_nonneg_r; [apply Z.pow_nonneg; lia | assumption].
  - replace e with (- (- e)) by lia.
    rewrite !Z.shiftl_opp_r, !Z.shiftr_div_pow2 by lia.
    apply Z.div_le_mono; [apply Z.pow_pos_nonneg; lia | assumption].
Qed.
End RoundedResults.

Lemma digits2_pos_le (m m' : positive) :
  Zpos m <= Zpos m' -> Zpos (digits2_pos m) <= Zpos (digits2_pos m').
Proof.
  intros Hle. pose proof (digits2_pos_bounds m') as [_ Hhi].
  apply (Zdigits2_le (Zpos m) (Zpos (digits2_pos m'))); lia.
Qed.

(** Along the order of valid numbers that are not negative, the integer
    parts, where there are any, are in the same order. *)
Lemma Ztrunc_le_of_SFleb (prec emax : Z) (z z' : spec_float) (t t' : Z) :
  0 < prec ->
  valid_binary prec emax z = true -> valid_binary prec emax z' = true ->
  nonneg_class z -> nonneg_class z' ->
  SFleb z z' = true ->
  Ztrunc z = Some t -> Ztrunc z' = Some t' -> t <= t'.
Proof.
  intros Hprec Hv Hv' Hc Hc' Hle Ht Ht'.
  destruct Hc as [->|[->|Hc]]; [|discriminate|];
    (destruct Hc' as [->|[->|Hc']]; [|discriminate|]).
  - injection Ht as <-. injection Ht' as <-. lia.
  - destruct z' as [| | |[] m' e']; try discriminate.
    injection Ht as <-. injection Ht' as <-. simpl.
    apply Z.shiftl_nonneg. lia.
  - destruct z as [| | |[] m e]; discriminate.
  - destruct z as [| | |[] m e]; try discriminate.
    destruct z' as [| | |[] m' e']; try discriminate.
    injection Ht as <-. injection Ht' as <-. simpl.
    destruct (SFleb_valid_finite prec emax Hprec m' m e' e Hv' Hv Hle) as [He Hm].
    apply Ztrunc_monotone; assumption.
Qed.

Lemma F64_of_float_le (m m' : positive) (e e' : Z) :
  F32.valid (S754_finite false m e) = true ->
  F32.valid (S754_finite false m' e') = true ->
  e <= e' -> Zpos m <= Zpos m' * 2 ^ (e' - e) ->
  exists (M M' : positive) (E E' : Z),
    F64.of_float (S754_finite false m e) = S754_finite false M E
    /\ F64.of_float (S754_finite false m' e') = S754_finite false M' E'
    /\ E <= E' /\ Zpos M <= Zpos M' * 2 ^ (E' - E).
Proof.
  intros Hv Hv' He Hm.
  destruct (F64_of_float_exact false m e Hv) as (Hk & Heq & _ & _).
  destruct (F64_of_float_exact false m' e' Hv') as (Hk' & Heq' & _ & _).
  set (k := 53 - Zpos (digits2_pos m)) in *.
  set (k' := 53 - Zpos (digits2_pos m')) in *.
  exists (Z.to_pos (Zpos m * 2 ^ k)), (Z.to_pos (Zpos m' * 2 ^ k')), (e - k), (e' - k').
  split; [exact Heq|]. split; [exact Heq'|].
  assert (0 < 2 ^ k) as Pk by (apply Z.pow_pos_nonneg; lia).
  assert (0 < 2 ^ k') as Pk' by (apply Z.pow_pos_nonneg; lia).
  rewrite !Z2Pos.id by (apply Z.mul_pos_pos; lia).
  unfold F32.valid, valid_binary, bounded, canonical_mantissa, F32.prec, F32.emax
    in Hv, Hv'.
  apply andb_true_iff in Hv as [Hc _]. apply andb_true_iff in Hv' as [Hc' _].
  apply Z.eqb_eq in Hc, Hc'.
  assert (e - k <= e' - k') as HE.
  { destruct (Z.eq_dec e e') as [<-|Hne].
    - rewrite Z.sub_diag, Z.pow_0_r, Z.mul_1_r in Hm.
      pose proof (digits2_pos_le m m' Hm). unfold k, k'. lia.
    - unfold fexp, emin in Hc, Hc'. unfold k, k'. lia. }
  split; [exact HE|].
  replace (Zpos m' * 2 ^ k' * 2 ^ (e' - k' - (e - k)))
    with (Zpos m' * 2 ^ (e' - e) * 2 ^ k).
  - apply Z.mul_le_mono_nonneg_r; lia.
  - rewrite <- !Z.mul_assoc, <- !Z.pow_add_r by lia. do 2 f_equal. lia.
Qed.

(** From the depth in meters to the millimeter value: the order is kept. *)
Lemma millimeters_monotone (r r' : float32) (t t' : Z) :
  F32.valid r = true -> F32.valid r' = true ->
  nonneg_class r -> nonneg_class r' ->
  SFleb r r' = true ->
  Ztrunc (F64.mul kMetersToMillimeters (F64.of_float r)) = Some t ->
  Ztrunc (F64.mul kMetersToMillimeters (F64.of_float r')) = Some t' ->
  t <= t'.
Proof.
  intros Hv Hv' Hc Hc' Hle Ht Ht'.
  assert (F64.prec <= Zpos (digits2_pos 8796093022208000)) as Hfull by reflexivity.
  assert (0 < F64.prec) as Hprec by reflexivity.
  assert (forall m e, F32.valid (S754_finite false m e) = true ->
            nonneg_class
              (F64.mul kMetersToMillimeters (F64.of_float (S754_finite false m e)))
            /\ valid_binary F64.prec F64.emax
                 (F64.mul kMetersToMillimeters (F64.of_float (S754_finite false m e)))
               = true) as Hmm.
  { intros m e Hvm.
    destruct (F64_of_float_exact false m e Hvm) as (_ & -> & _ & _).
    destruct (SFmul_valid_class F64.prec F64.emax Hprec 8796093022208000
                (Z.to_pos (Zpos m * 2 ^ (53 - Zpos (digits2_pos m)))) (-43)
                (e - (53 - Zpos (digits2_pos m))) Hfull) as [Hval Hcl].
    split; [exact Hcl | exact Hval]. }
  destruct Hc as [->|[->|Hc]]; [|discriminate|];
    (destruct Hc' as [->|[->|Hc']]; [|discriminate|]).
  - injection Ht as <-. injection Ht' as <-. lia.
  - destruct r' as [| | |[] m' e']; try discriminate.
    injection Ht as <-.
    destruct (Hmm m' e' Hv') as [[E|[E|E]] _].
    + rewrite E in Ht'. injection Ht' as <-. lia.
    + rewrite E in Ht'. discriminate.
    + destruct (F64.mul _ _) as [| | |[] M E']; try discriminate.
      injection Ht' as <-. simpl. apply Z.shiftl_nonneg. lia.
  - destruct r as [| | |[] m e]; discriminate.
  - destruct r as [| | |[] m e]; try discriminate.
    destruct r' as [| | |[] m' e']; try discriminate.
    destruct (SFleb_valid_finite F32.prec F32.emax F32_prec_pos m' m e' e Hv' Hv Hle)
      as [He Hm].
    destruct (F64_of_float_le m m' e e' Hv Hv' He Hm)
      as (M & M' & E & E' & HM & HM' & HE & HMM).
    destruct (Hmm m e Hv) as [Hcl Hval]. destruct (Hmm m' e' Hv') as [Hcl' Hval'].
    apply (Ztrunc_le_of_SFleb F64.prec F64.emax _ _ t t' Hprec Hval Hval' Hcl Hcl');
      try assumption.
    rewrite HM, HM'.
    apply (SFmul_monotone F64.prec F64.emax Hprec); assumption.
Qed.

(** X12. The order of the depths survives the conversion to millimeters.
    For a calibration with positive finite parameters and positive finite
    disparities [d1 <= d2], whenever both millimeter values exist the one at
    [d2] is at most the one at [d1]; so are the [depth_mm] of the code when
    both fit [int32_t], and so are the values stored for the two pixels when
    both depths are in range. *)
Theorem X12_millimeters_non_increasing `{Platform} (calibration : StereoCalibration)
    (d1 d2 : float32) (t1 t2 : Z) :
  positive_calibration calibration = true ->
  is_positive_finite d1 = true -> F32.valid d1 = true ->
  is_positive_finite d2 = true -> F32.valid d2 = true ->
  SFleb d1 d2 = true ->
  Ztrunc (F64.mul kMetersToMillimeters
            (F64.of_float (DepthFromDisparity d1 calibration))) = Some t1 ->
  Ztrunc (F64.mul kMetersToMillimeters
            (F64.of_float (DepthFromDisparity d2 calibration))) = Some t2 ->
  t2 <= t1
  /\ (in_int32 t1 = true -> in_int32 t2 = true ->
        depth_mm_of d2 calibration <= depth_mm_of d1 calibration)
  /\ (500 <= t2 -> t1 <= 15000 -> pixel d2 calibration <= pixel d1 calibration).
Proof.
  intros Hcal Hd1 Hv1 Hd2 Hv2 Hle Ht1 Ht2.
  assert (t2 <= t1) as Hmono.
  { revert Ht1 Ht2. unfold DepthFromDisparity. destruct calibration as [b f].
    unfold positive_calibration in Hcal. simpl in *.
    apply andb_true_iff in Hcal as [Hb Hf].
    destruct b as [| | |[] mb eb]; try discriminate.
    destruct f as [| | |[] mf ef]; try discriminate.
    destruct d1 as [| | |[] m1 e1]; try discriminate.
    destruct d2 as [| | |[] m2 e2]; try discriminate.
    pose proof (SFmul_finite_class F32.prec F32.emax F32_prec_pos mb mf eb ef) as Hx.
    unfold F32.mul, F32.div.
    destruct (SFmul F32.prec F32.emax _ _) as [sx|sx| |sx mx ex];
      try contradiction; subst sx.
    - simpl. intros [= <-] [= <-]. lia.
    - simpl. discriminate.
    - intros Ht1 Ht2.
      destruct (SFleb_valid_finite F32.prec F32.emax F32_prec_pos m2 m1 e2 e1 Hv2 Hv1 Hle)
        as [He Hm].
      pose proof (SFdiv_antitone F32.prec F32.emax F32_prec_pos mx m2 m1 ex e2 e1 He Hm)
        as Hanti.
      destruct (SFdiv_valid_class F32.prec F32.emax F32_prec_pos mx m1 ex e1) as [Hva1 Hc1].
      destruct (SFdiv_valid_class F32.prec F32.emax F32_prec_pos mx m2 ex e2) as [Hva2 Hc2].
      exact (millimeters_monotone _ _ t2 t1 Hva2 Hva1 Hc2 Hc1 Hanti Ht2 Ht1). }
  split; [exact Hmono|]. split.
  - intros Hi1 Hi2. unfold depth_mm_of. simpl to_float.
    rewrite (static_cast_int32_trunc _ t1 Ht1 Hi1), (static_cast_int32_trunc _ t2 Ht2 Hi2).
    exact Hmono.
  - intros Hlo Hhi.
    assert (in_int32 t1 = true /\ in_int32 t2 = true) as [Hi1 Hi2].
    { unfold in_int32, INT32_MIN, INT32_MAX.
      split; apply andb_true_iff; split; apply Z.leb_le; lia. }
    rewrite !pixel_spec. cbv zeta. unfold depth_mm_of. simpl to_float.
    rewrite (static_cast_int32_trunc _ t1 Ht1 Hi1), (static_cast_int32_trunc _ t2 Ht2 Hi2).
    replace (15000 <? t1) with false by (symmetry; apply Z.ltb_ge; lia).
    replace (t1 <? 500) with false by (symmetry; apply Z.ltb_ge; lia).
    replace (15000 <? t2) with false by (symmetry; apply Z.ltb_ge; lia).
    replace (t2 <? 500) with false by (symmetry; apply Z.ltb_ge; lia).
    exact Hmono.
Qed.

(** ** The depth as a function of the calibration *)

Section Numerators.
Variables prec emax : Z.
Hypothesis prec_pos : 0 < prec.

(** Dividing a larger positive numerator by the same positive divisor gives
    a quotient that is not smaller, roundings included. *)
Lemma SFdiv_monotone (mx mx' my : positive) (ex ex' ey : Z) :
  ex <= ex' -> Zpos mx <= Zpos mx' * 2 ^ (ex' - ex) ->
  SFleb (SFdiv prec emax (S754_finite false mx ex) (S754_finite false my ey))
        (SFdiv prec emax (S754_finite false mx' ex') (S754_finite false my ey)) = true.
Proof.
  intros Hex Hmx.
  destruct (SFdiv_finite prec emax prec_pos false false mx my ex ey)
    as (s & n1 & Hs & Hn1 & -> & He1 & Hhi & Hlo).
  destruct (SFdiv_finite prec emax prec_pos false false mx' my ex' ey)
    as (s' & n1' & Hs' & Hn1' & -> & He1' & Hhi' & Hlo').
  simpl xorb.
  set (e1 := ex - ey - s + n1) in *. set (e1' := ex' - ey - s' + n1') in *.
  set (dl := ex' - ex) in *.
  assert (0 < 2 ^ s) as Ps by (apply Z.pow_pos_nonneg; lia).
  assert (0 < 2 ^ n1) as Pn1 by (apply Z.pow_pos_nonneg; lia).
  assert (0 < 2 ^ s') as Ps' by (apply Z.pow_pos_nonneg; lia).
  assert (0 < 2 ^ n1') as Pn1' by (apply Z.pow_pos_nonneg; lia).
  assert (0 < 2 ^ prec) as Pp by (apply Z.pow_pos_nonneg; lia).
  assert (0 < 2 ^ (prec - 1)) as Pp1 by (apply Z.pow_pos_nonneg; lia).
  assert (0 < 2 ^ dl) as Pdl by (apply Z.pow_pos_nonneg; lia).
  set (N := Zpos mx * 2 ^ s) in *. set (D := Zpos my * 2 ^ n1) in *.
  set (N' := Zpos mx' * 2 ^ s') in *. set (D' := Zpos my * 2 ^ n1') in *.
  assert (0 < D) as HD by (unfold D; nia).
  assert (0 < D') as HD' by (unfold D'; nia).
  assert (0 < N) as HN by (unfold N; nia).
  assert (0 < N') as HN' by (unfold N'; nia).
  apply (finalize_le prec emax prec_pos); try assumption.
  - apply (rneZ_in_binade prec prec_pos); lia.
  - apply (rneZ_in_binade prec prec_pos); lia.
  - intros He. apply (rneZ_normal prec prec_pos); [assumption|]. apply Hlo', He.
  - assert (e1 <= e1') as Hcell.
    { destruct (Z_le_gt_dec e1 e1') as [|Hgt]; [assumption|exfalso].
      specialize (Hlo ltac:(lia)).
      assert (n1' + prec + dl + s <= prec - 1 + n1 + s') as Hexp
        by (unfold e1, e1', dl in *; lia).
      assert (2 ^ (n1' + prec + dl + s) <= 2 ^ (prec - 1 + n1 + s')) as Hpow
        by (apply Z.pow_le_mono_r; lia).
      rewrite !Z.pow_add_r in Hpow by lia.
      unfold N, D, N', D' in *.
      assert (2 ^ (prec - 1) * (Zpos my * 2 ^ n1) * 2 ^ s' <= Zpos mx * 2 ^ s * 2 ^ s')
        as H1 by (apply Z.mul_le_mono_nonneg_r; lia).
      assert (Zpos mx * (2 ^ s * 2 ^ s') <= Zpos mx' * 2 ^ dl * (2 ^ s * 2 ^ s'))
        as H2 by (apply Z.mul_le_mono_nonneg_r; nia).
      assert (Zpos mx' * 2 ^ s' * (2 ^ dl * 2 ^ s)
              < Zpos my * 2 ^ n1' * 2 ^ prec * (2 ^ dl * 2 ^ s))
        as H3 by (apply Z.mul_lt_mono_pos_r; nia).
      assert (Zpos my * (2 ^ n1' * 2 ^ prec * 2 ^ dl * 2 ^ s)
              <= Zpos my * (2 ^ (prec - 1) * 2 ^ n1 * 2 ^ s'))
        as H4 by (apply Z.mul_le_mono_nonneg_l; lia).
      lia. }
    destruct (Z.eq_dec e1 e1') as [Heq|Hne]; [right|left; lia].
    split; [assumption|]. apply rneZ_mono; try assumption.
    assert (s' + n1 = s + n1' + dl) as Hexp by (unfold e1, e1', dl in *; lia).
    assert (2 ^ (s' + n1) = 2 ^ (s + n1' + dl)) as Hpow by (rewrite Hexp; reflexivity).
    rewrite !Z.pow_add_r in Hpow by lia.
    unfold N, D, N', D'.
    assert (Zpos mx * (Zpos my * 2 ^ s * 2 ^ n1')
            <= Zpos mx' * 2 ^ dl * (Zpos my * 2 ^ s * 2 ^ n1'))
      as H3 by (apply Z.mul_le_mono_nonneg_r; nia).
    assert (Zpos mx' * Zpos my * (2 ^ s' * 2 ^ n1) =
            Zpos mx' * Zpos my * (2 ^ s * 2 ^ n1' * 2 ^ dl)) as H5
      by (rewrite Hpow; reflexivity).
    lia.
Qed.
End Numerators.

Lemma SFmul_comm (prec emax : Z) (x y : spec_float) :
  SFmul prec emax x y = SFmul prec emax y x.
Proof.
  destruct x as [sx|sx| |sx mx ex]; destruct y as [sy|sy| |sy my ey]; simpl;
    try reflexivity; try (rewrite xorb_comm; reflexivity).
  rewrite xorb_comm, Pos.mul_comm, Z.add_comm. reflexivity.
Qed.

Lemma SFleb_nonneg_infinity (r : spec_float) :
  nonneg_class r -> SFleb r (S754_infinity false) = true.
Proof.
  intros [->|[->|Hr]]; try reflexivity.
  destruct r as [| | |[] m e]; try discriminate. reflexivity.
Qed.

Lemma SFleb_zero_nonneg (r : spec_float) :
  nonneg_class r -> SFleb (S754_zero false) r = true.
Proof.
  intros [->|[->|Hr]]; try reflexivity.
  destruct r as [| | |[] m e]; try discriminate. reflexivity.
Qed.

(** The quotient by a positive finite divisor does not decrease with the
    numerator, over the valid numbers that are not negative. *)
Lemma F32_div_monotone (x x' : float32) (my : positive) (ey : Z) :
  F32.valid x = true -> F32.valid x' = true ->
  nonneg_class x -> nonneg_class x' ->
  SFleb x x' = true ->
  SFleb (F32.div x (S754_finite false my ey)) (F32.div x' (S754_finite false my ey)) = true.
Proof.
  intros Hv Hv' Hc Hc' Hle. unfold F32.div.
  destruct Hc as [->|[->|Hc]]; destruct Hc' as [->|[->|Hc']]; try reflexivity;
    try discriminate.
  - destruct x' as [| | |[] m' e']; try discriminate.
    apply SFleb_zero_nonneg.
    apply (SFdiv_valid_class F32.prec F32.emax F32_prec_pos m' my e' ey).
  - destruct x' as [| | |[] m' e']; discriminate.
  - destruct x as [| | |[] m e]; discriminate.
  - destruct x as [| | |[] m e]; try discriminate.
    apply SFleb_nonneg_infinity.
    apply (SFdiv_valid_class F32.prec F32.emax F32_prec_pos m my e ey).
  - destruct x as [| | |[] m e]; try discriminate.
    destruct x' as [| | |[] m' e']; try discriminate.
    destruct (SFleb_valid_finite F32.prec F32.emax F32_prec_pos m' m e' e Hv' Hv Hle)
      as [He Hm].
    apply (SFdiv_monotone F32.prec F32.emax F32_prec_pos); assumption.
Qed.

(** X13. The depth does not decrease with the focal length, nor with the
    baseline. For a positive finite disparity and a positive parameter with
    a full mantissa, raising the other parameter from [p] to [p'], both
    positive, finite and valid, never lowers the depth, roundings of the
    product and of the quotient included. *)
Theorem X13_depth_non_decreasing_in_calibration (fixed p p' d : float32) :
  is_positive_normal fixed = true ->
  is_positive_finite p = true -> F32.valid p = true ->
  is_positive_finite p' = true -> F32.valid p' = true ->
  is_positive_finite d = true ->
  SFleb p p' = true ->
  SFleb (DepthFromDisparity d (StereoCalibration_new fixed p))
        (DepthFromDisparity d (StereoCalibration_new fixed p')) = true
  /\ SFleb (DepthFromDisparity d (StereoCalibration_new p fixed))
           (DepthFromDisparity d (StereoCalibration_new p' fixed)) = true.
Proof.
  intros Hfix Hp Hv Hp' Hv' Hd Hle.
  assert (SFleb (DepthFromDisparity d (StereoCalibration_new fixed p))
                (DepthFromDisparity d (StereoCalibration_new fixed p')) = true) as Hfocal.
  { unfold DepthFromDisparity. simpl.
    destruct fixed as [| | |[] mk ek]; try discriminate.
    destruct p as [| | |[] m e]; try discriminate.
    destruct p' as [| | |[] m' e']; try discriminate.
    destruct d as [| | |[] my ey]; try discriminate.
    apply Z.leb_le in Hfix.
    destruct (SFleb_valid_finite F32.prec F32.emax F32_prec_pos m' m e' e Hv' Hv Hle)
      as [He Hm].
    destruct (SFmul_valid_class F32.prec F32.emax F32_prec_pos mk m ek e Hfix)
      as [Hvx Hcx].
    destruct (SFmul_valid_class F32.prec F32.emax F32_prec_pos mk m' ek e' Hfix)
      as [Hvx' Hcx'].
    apply F32_div_monotone; try assumption.
    apply (SFmul_monotone F32.prec F32.emax F32_prec_pos); assumption. }
  split; [exact Hfocal|].
  unfold DepthFromDisparity in *. simpl in *. unfold F32.mul in *.
  rewrite (SFmul_comm F32.prec F32.emax p fixed), (SFmul_comm F32.prec F32.emax p' fixed).
  exact Hfocal.
Qed.

(** ** The further properties on concrete inputs *)

Lemma X1_DepthFromDisparityMap_overwrites_witness :
  length (data_ typed_two_pixels)
    = (rows_ typed_two_pixels * cols_ typed_two_pixels)%nat
  /\ length (data stale_depth) = (rows stale_depth * cols stale_depth)%nat
  /\ (size_ typed_two_pixels <> size stale_depth ->
        @DepthFromDisparityMap x86_64_opencv float32 _ typed_two_pixels half_meter
          stale_depth = (AssertionFailed, stale_depth))
  /\ (size_ typed_two_pixels = size stale_depth ->
        @DepthFromDisparityMap x86_64_opencv float32 _ typed_two_pixels half_meter
          stale_depth =
          (Returned,
           {| type := type stale_depth; rows := rows stale_depth;
              cols := cols stale_depth;
              data := (fun disp => Sc_int (@pixel x86_64_opencv float32 _ disp half_meter))
                        <$> data_ typed_two_pixels |})
        /\ forall previous : Mat,
             type previous = type stale_depth -> size previous = size stale_depth ->
             length (data previous) = length (data stale_depth) ->
             @DepthFromDisparityMap x86_64_opencv float32 _ typed_two_pixels half_meter
               previous =
             @DepthFromDisparityMap x86_64_opencv float32 _ typed_two_pixels half_meter
               stale_depth).
Proof.
  refine (conj eq_refl (conj eq_refl _)).
  exact (@X1_DepthFromDisparityMap_overwrites x86_64_opencv float32 _
           typed_two_pixels half_meter stale_depth eq_refl eq_refl).
Defined.

Lemma X2_DepthFromDisparityMap_by_blocks_witness :
  length (data_ typed_two_pixels)
    = (rows_ typed_two_pixels * cols_ typed_two_pixels)%nat
  /\ length (data stale_depth) = (rows stale_depth * cols stale_depth)%nat
  /\ size_ typed_two_pixels = size stale_depth
  /\ cols_ typed_two_pixels = cols_ typed_two_pixels
  /\ @DepthFromDisparityMap x86_64_opencv float32 _
       (Mat__vconcat typed_two_pixels typed_two_pixels) half_meter
       (Mat_vconcat stale_depth stale_depth) =
     (Returned,
      Mat_vconcat
        (snd (@DepthFromDisparityMap x86_64_opencv float32 _ typed_two_pixels
                half_meter stale_depth))
        (snd (@DepthFromDisparityMap x86_64_opencv float32 _ typed_two_pixels
                half_meter stale_depth))).
Proof.
  refine (conj eq_refl (conj eq_refl (conj eq_refl (conj eq_refl _)))).
  exact (@X2_DepthFromDisparityMap_by_blocks x86_64_opencv float32 _
           typed_two_pixels typed_two_pixels half_meter stale_depth stale_depth
           eq_refl eq_refl eq_refl eq_refl eq_refl eq_refl eq_refl).
Defined.

Lemma X3_conversion_output_well_formed_witness :
  input_is_depth_ (fixed_estimator false two_pixels) = false
  /\ DisparityMapFromStereo (fixed_estimator false two_pixels) image image Mat_empty
       = (Returned, two_pixels)
  /\ Mat_wf two_pixels = true
  /\ type (snd (@DepthFromStereo x86_64_opencv (fixed_estimator false two_pixels)
                  image image half_meter stale_depth)) = CV_16SC1
  /\ Mat_wf (snd (@DepthFromStereo x86_64_opencv (fixed_estimator false two_pixels)
                    image image half_meter stale_depth)) = true.
Proof.
  refine (conj eq_refl (conj eq_refl (conj eq_refl _))).
  exact (@X3_conversion_output_well_formed x86_64_opencv
           (fixed_estimator false two_pixels) image image half_meter stale_depth
           two_pixels eq_refl eq_refl eq_refl).
Defined.

Lemma X6_zero_disparity_not_finite_witness :
  is_zero (S754_zero false) = true
  /\ is_non_finite (DepthFromDisparity (S754_zero false) kitti) = true
  /\ @depth_mm_of x86_64_opencv float32 _ (S754_zero false) kitti
       = @cvt_indefinite x86_64_opencv.
Proof.
  refine (conj eq_refl _).
  exact (@X6_zero_disparity_not_finite x86_64_opencv (S754_zero false) kitti eq_refl).
Defined.

Lemma X7_positive_inputs_positive_depth_witness :
  positive_calibration kitti = true
  /\ is_positive_finite (F32.of_Z 50) = true
  /\ (DepthFromDisparity (F32.of_Z 50) kitti = S754_zero false
      \/ DepthFromDisparity (F32.of_Z 50) kitti = S754_infinity false
      \/ is_positive_finite (DepthFromDisparity (F32.of_Z 50) kitti) = true).
Proof.
  refine (conj eq_refl (conj eq_refl _)).
  exact (X7_positive_inputs_positive_depth (F32.of_Z 50) kitti eq_refl eq_refl).
Defined.

Lemma X9_uint16_to_float_exact_witness :
  in_uint16 65535 = true
  /\ (65535 = 0 -> @to_float Z _ 65535 = S754_zero false)
  /\ (0 < 65535 ->
        exists (m : positive) (k : Z),
          @to_float Z _ 65535 = S754_finite false m (- k)
          /\ 0 <= k /\ Zpos m = 65535 * 2 ^ k)
  /\ F32.valid (@to_float Z _ 65535) = true
  /\ Ztrunc (@to_float Z _ 65535) = Some 65535
  /\ (forall v : Z, in_uint16 v = true ->
        @to_float Z _ v = @to_float Z _ 65535 -> v = 65535).
Proof.
  refine (conj eq_refl _).
  exact (X9_uint16_to_float_exact 65535 eq_refl).
Defined.

Lemma X10_float_to_double_exact_witness :
  F32.valid (S754_finite false 9059697 (-24)) = true
  /\ let k := 53 - Zpos (digits2_pos 9059697) in
     0 <= k
     /\ F64.of_float (S754_finite false 9059697 (-24))
          = S754_finite false (Z.to_pos (Zpos 9059697 * 2 ^ k)) (-24 - k)
     /\ F64.valid (F64.of_float (S754_finite false 9059697 (-24))) = true
     /\ Ztrunc (F64.of_float (S754_finite false 9059697 (-24)))
          = Ztrunc (S754_finite false 9059697 (-24)).
Proof.
  refine (conj eq_refl _).
  exact (X10_float_to_double_exact false 9059697 (-24) eq_refl).
Defined.

(** Baseline 0.5 m and focal length 700 px: the product is 350, and a
    disparity of 2 px gives exactly 175 m. *)
Lemma X11_exact_quotient_returned_witness :
  F32.mul (baseline_meters (StereoCalibration_new (F32.of_ratio 1 2) (F32.of_Z 700)))
          (focal_length_px (StereoCalibration_new (F32.of_ratio 1 2) (F32.of_Z 700)))
    = S754_finite false 11468800 (-15)
  /\ F32.valid (S754_finite (xorb false false) 11468800 (-16)) = true
  /\ Zpos 11468800 * 2 ^ (-15 - Z.min (-15) (-16 + -22)) =
       Zpos 11468800 * Zpos 8388608 * 2 ^ (-16 + -22 - Z.min (-15) (-16 + -22))
  /\ DepthFromDisparity (S754_finite false 8388608 (-22))
       (StereoCalibration_new (F32.of_ratio 1 2) (F32.of_Z 700))
     = S754_finite (xorb false false) 11468800 (-16).
Proof.
  refine (conj eq_refl (conj eq_refl (conj eq_refl _))).
  exact (X11_exact_quotient_returned
           (StereoCalibration_new (F32.of_ratio 1 2) (F32.of_Z 700))
           false false 11468800 8388608 11468800 (-15) (-22) (-16)
           eq_refl eq_refl eq_refl).
Defined.

Lemma X12_millimeters_non_increasing_witness :
  positive_calibration kitti = true
  /\ is_positive_finite (F32.of_Z 50) = true /\ F32.valid (F32.of_Z 50) = true
  /\ is_positive_finite (F32.of_Z 51) = true /\ F32.valid (F32.of_Z 51) = true
  /\ SFleb (F32.of_Z 50) (F32.of_Z 51) = true
  /\ Ztrunc (F64.mul kMetersToMillimeters
               (F64.of_float (DepthFromDisparity (F32.of_Z 50) kitti))) = Some 7776
  /\ Ztrunc (F64.mul kMetersToMillimeters
               (F64.of_float (DepthFromDisparity (F32.of_Z 51) kitti))) = Some 7623
  /\ 7623 <= 7776
  /\ (in_int32 7776 = true -> in_int32 7623 = true ->
        @depth_mm_of x86_64_opencv float32 _ (F32.of_Z 51) kitti
          <= @depth_mm_of x86_64_opencv float32 _ (F32.of_Z 50) kitti)
  /\ (500 <= 7623 -> 7776 <= 15000 ->
        @pixel x86_64_opencv float32 _ (F32.of_Z 51) kitti
          <= @pixel x86_64_opencv float32 _ (F32.of_Z 50) kitti).
Proof.
  refine (conj eq_refl (conj eq_refl (conj eq_refl (conj eq_refl (conj eq_refl
            (conj eq_refl (conj eq_refl (conj eq_refl _)))))))).
  exact (@X12_millimeters_non_increasing x86_64_opencv kitti (F32.of_Z 50) (F32.of_Z 51)
           7776 7623 eq_refl eq_refl eq_refl eq_refl eq_refl eq_refl eq_refl eq_refl).
Defined.

Lemma X13_depth_non_decreasing_in_calibration_witness :
  is_positive_normal (F32.of_ratio 54 100) = true
  /\ is_positive_finite (F32.of_Z 720) = true /\ F32.valid (F32.of_Z 720) = true
  /\ is_positive_finite (F32.of_Z 721) = true /\ F32.valid (F32.of_Z 721) = true
  /\ is_positive_finite (F32.of_Z 50) = true
  /\ SFleb (F32.of_Z 720) (F32.of_Z 721) = true
  /\ SFleb (DepthFromDisparity (F32.of_Z 50)
              (StereoCalibration_new (F32.of_ratio 54 100) (F32.of_Z 720)))
           (DepthFromDisparity (F32.of_Z 50)
              (StereoCalibration_new (F32.of_ratio 54 100) (F32.of_Z 721))) = true
  /\ SFleb (DepthFromDisparity (F32.of_Z 50)
              (StereoCalibration_new (F32.of_Z 720) (F32.of_ratio 54 100)))
           (DepthFromDisparity (F32.of_Z 50)
              (StereoCalibration_new (F32.of_Z 721) (F32.of_ratio 54 100))) = true.
Proof.
  refine (conj eq_refl (conj eq_refl (conj eq_refl (conj eq_refl (conj eq_refl
            (conj eq_refl (conj eq_refl _))))))).
  exact (X13_depth_non_decreasing_in_calibration (F32.of_ratio 54 100)
           (F32.of_Z 720) (F32.of_Z 721) (F32.of_Z 50)
           eq_refl eq_refl eq_refl eq_refl eq_refl eq_refl eq_refl).
Defined.
